(** * rproxy: route reconciliation and certificate lifecycle

    A shallow embedding of the core of rproxy (internal/proxy/router.go,
    internal/certs/manager.go, the Gandi DNS-01 provider, the container
    listing of internal/podman/client.go, the configuration and the proxy
    handler), followed by the properties proved about it.

    Conventions.  Go strings are byte strings and are modelled by [string];
    Go maps are modelled by stdpp's [gmap]; [int] and [time.Duration] are
    modelled by [Z] with the 64-bit range written out where the code depends
    on it.  Calls that leave the process (ssh, the file system, the ACME
    service, HTTP) take their outcome from an explicit environment. *)

From Stdlib Require Import ZArith Lia Ascii String List DecimalString.
From stdpp Require Import base decidable option list gmap strings fin_maps.

Local Open Scope string_scope.
Local Open Scope Z_scope.

(* ===================================================================== *)
(** * Go runtime and standard library helpers                             *)
(* ===================================================================== *)

Module Go.

Definition minInt64 : Z := - 2 ^ 63.
Definition maxInt64 : Z := 2 ^ 63 - 1.

(** [strings.HasSuffix]: len(s) >= len(suffix) && s[len(s)-len(suffix):] == suffix *)
Definition HasSuffix (s suffix : string) : bool :=
  (String.length suffix <=? String.length s)%nat
  && String.eqb
       (substring (String.length s - String.length suffix)
                  (String.length suffix) s)
       suffix.

(** [strings.TrimSuffix]: s without the trailing suffix, or s itself. *)
Definition TrimSuffix (s suffix : string) : string :=
  if HasSuffix s suffix
  then substring 0 (String.length s - String.length suffix) s
  else s.

(** One decimal digit. *)
Definition digit (a : ascii) : option Z :=
  let n := Z.of_nat (nat_of_ascii a) in
  if (48 <=? n) && (n <=? 57) then Some (n - 48) else None.

Fixpoint digits (s : string) (acc : Z) : option Z :=
  match s with
  | EmptyString => Some acc
  | String a rest =>
      match digit a with
      | Some d => digits rest (10 * acc + d)
      | None => None
      end
  end.

(** [strconv.Atoi] on a 64-bit platform: optional sign, decimal digits,
    a syntax error on anything else and a range error outside int64. *)
Definition Atoi (s : string) : option Z :=
  let '(neg, body) :=
    match s with
    | String "+"%char rest => (false, rest)
    | String "-"%char rest => (true, rest)
    | _ => (false, s)
    end in
  match body with
  | EmptyString => None
  | _ =>
      match digits body 0 with
      | Some n =>
          let v := if neg then - n else n in
          if (minInt64 <=? v) && (v <=? maxInt64) then Some v else None
      | None => None
      end
  end.

(** [time.Duration] is an int64 count of nanoseconds. *)
Definition minDuration : Z := minInt64.
Definition maxDuration : Z := maxInt64.

(** [t.Sub(u)]: the difference of two instants (nanoseconds on the wall
    clock), saturated to the range of [time.Duration]. *)
Definition Sub (t u : Z) : Z :=
  let d := t - u in
  if d <? minDuration then minDuration
  else if maxDuration <? d then maxDuration
  else d.

(** [time.Until(t)] is [t.Sub(time.Now())]. *)
Definition Until (t now : Z) : Z := Sub t now.

End Go.

(* ===================================================================== *)
(** * internal/podman: what discovery hands to the router                 *)
(* ===================================================================== *)

Module podman.

(** [ContainerInfo]: one line of the container listing. *)
Record ContainerInfo := {
  ID : string;
  Name : string;
  ExposedPort : string;
  FQDN : string
}.

(** The anonymous struct stored per attached network. *)
Record NetworkDetails := { IPAddress : string }.

(** [InspectOutput], with [NetworkSettings.Networks] flattened.  A nil Go
    map and an empty one range alike, so both are [∅]. *)
Record InspectOutput := {
  Id : string;
  Networks : gmap string NetworkDetails
}.

#[global] Instance ContainerInfo_eq_dec : EqDecision ContainerInfo.
Proof. solve_decision. Defined.
#[global] Instance NetworkDetails_eq_dec : EqDecision NetworkDetails.
Proof. solve_decision. Defined.

End podman.

(* ===================================================================== *)
(** * internal/proxy/router.go                                            *)
(* ===================================================================== *)

Module proxy.
Import podman.

(** [Route] stores target backend info. *)
Record Route := { TargetIP : string; TargetPort : Z }.

#[global] Instance Route_eq_dec : EqDecision Route.
Proof. solve_decision. Defined.

(** [Router]: only the routing table is state; the clients and the
    configuration are the environment below. *)
Record Router := { routes : gmap string Route }.

Definition NewRouter : Router := {| routes := ∅ |}.

(** [GetRoute] finds the route for a given FQDN. *)
Definition GetRoute (r : Router) (fqdn : string) : option Route :=
  routes r !! fqdn.

(** A Go [range] over a map visits every entry once, in an order the
    runtime picks anew each time.  [visit] is an order the loop may see. *)
Definition range_of {V} (m : gmap string V) (visit : list (string * V)) : Prop :=
  visit ≡ₚ map_to_list m.

(** What one goroutine learns from [InspectContainer]: the decoded
    document and the order in which its [range] walks the networks. *)
Record Inspection := {
  data : InspectOutput;
  visit : list (string * NetworkDetails)
}.

(** Everything one tick takes from outside the process. *)
Record TickEnv := {
  (** [podmanClient.ListContainers()]; [None] is an error. *)
  ListContainers : option (list ContainerInfo);
  (** [podmanClient.InspectContainer(id)]; [None] is an error. *)
  InspectContainer : string -> option Inspection;
  (** The order in which the goroutines take [inspectMutex]. *)
  schedule : list ContainerInfo
}.

(** A tick environment is coherent when every range order is an order of
    the inspected map and the goroutines that run are the listed ones. *)
Definition coherent (env : TickEnv) : Prop :=
  (forall id i, InspectContainer env id = Some i ->
                range_of (Networks (data i)) (visit i))
  /\ (forall cs, ListContainers env = Some cs -> schedule env ≡ₚ cs).

(** router.go, lines 99-107: the first non-empty address the range meets;
    [ipAddress] keeps its zero value, the empty string, if there is none. *)
Fixpoint selectIP (visit : list (string * NetworkDetails)) : string :=
  match visit with
  | [] => ""
  | (_, netDetails) :: rest =>
      if decide (IPAddress netDetails <> "")
      then IPAddress netDetails
      else selectIP rest
  end.

(** router.go, lines 93-122: the part of the goroutine before the mutex.
    [None] stands for each of the three early returns. *)
Definition resolveRoute (env : TickEnv) (c : ContainerInfo) : option Route :=
  match InspectContainer env (ID c) with
  | None => None
  | Some inspectData =>
      let ipAddress := selectIP (visit inspectData) in
      if decide (ipAddress = "") then None
      else
        match Go.Atoi (ExposedPort c) with
        | None => None
        | Some exposedPort =>
            Some {| TargetIP := ipAddress; TargetPort := exposedPort |}
        end
  end.

(** The variables the goroutines share during one tick. *)
Record TickState := {
  newRoutes : gmap string Route;
  routesChanged : bool;
  (** the fqdns handed to [certManager.CheckAndManageCert], latest first *)
  certChecks : list string
}.

Definition tickStart : TickState :=
  {| newRoutes := ∅; routesChanged := false; certChecks := [] |}.

(** router.go, lines 125-138: the section under [inspectMutex]. *)
Definition commitRoute (oldRoutes : gmap string Route) (c : ContainerInfo)
    (newRoute : Route) (st : TickState) : TickState :=
  let changed :=
    match oldRoutes !! FQDN c with
    | None => true
    | Some oldRoute => bool_decide (oldRoute <> newRoute)
    end in
  if changed then
    {| newRoutes := <[FQDN c := newRoute]> (newRoutes st);
       routesChanged := true;
       certChecks := FQDN c :: certChecks st |}
  else
    {| newRoutes := <[FQDN c := newRoute]> (newRoutes st);
       routesChanged := routesChanged st;
       certChecks := certChecks st |}.

(** One goroutine of the fan-out. *)
Definition goroutine (env : TickEnv) (oldRoutes : gmap string Route)
    (st : TickState) (c : ContainerInfo) : TickState :=
  match resolveRoute env c with
  | None => st
  | Some newRoute => commitRoute oldRoutes c newRoute st
  end.

(** The state once [wg.Wait()] returns. *)
Definition fanOut (env : TickEnv) (oldRoutes : gmap string Route) : TickState :=
  foldl (goroutine env oldRoutes) tickStart (schedule env).

(** [updateRoutes] discovers containers and updates the routing map.  The
    result is the router after the tick and the certificate checks the
    tick triggered. *)
Definition updateRoutes (env : TickEnv) (r : Router) : Router * list string :=
  let oldRoutes := routes r in
  match ListContainers env with
  | None => (r, [])
  | Some _ =>
      let st := fanOut env oldRoutes in
      (if routesChanged st then {| routes := newRoutes st |} else r,
       certChecks st)
  end.

(** One more backend in a candidate table: entered under its fqdn if it
    resolved, dropped if it did not. *)
Definition addCandidate (env : TickEnv) (tbl : gmap string Route)
    (c : ContainerInfo) : gmap string Route :=
  match resolveRoute env c with
  | None => tbl
  | Some rt => <[FQDN c := rt]> tbl
  end.

(** The candidate table of a tick: every listed backend that resolved,
    under its fqdn. *)
Definition candidate (env : TickEnv) : gmap string Route :=
  foldl (addCandidate env) ∅ (schedule env).



End proxy.

(* ===================================================================== *)
(** * internal/certs/manager.go                                           *)
(* ===================================================================== *)

Module certs.

(** ** Data *)

(** [tls.Certificate]: the DER chain, leaf first, and the private key. *)
Record tlsCertificate := {
  Certificate : list string;
  PrivateKey : string
}.

(** [x509.Certificate], reduced to the field the manager reads. *)
Record x509Certificate := { NotAfter : Z }.

(** [certificate.Resource] as lego returns it: two PEM documents. *)
Record Resource := {
  res_Certificate : string;
  res_PrivateKey : string
}.

#[global] Instance tlsCertificate_eq_dec : EqDecision tlsCertificate.
Proof. solve_decision. Defined.

(** The two parsers of crypto/tls and crypto/x509 the manager calls;
    [None] is a returned error. *)
Class Crypto := {
  X509KeyPair : string -> string -> option tlsCertificate;
  ParseCertificate : string -> option x509Certificate
}.

(** [lego.Client], reduced to what [NewManager] configures. *)
Record LegoClient := { CADirURL : string }.

(** [Manager] without its cache: the [certs] map is shared mutable state
    and lives in [World] below. *)
Record Manager := {
  legoClient : option LegoClient;
  renewBefore : Z
}.

Definition certificatesPath : string := "/certs".

(** [filepath.Join(certificatesPath, name)] for a name free of path
    separators and dot segments, which is what host names are. *)
Definition Join (dir name : string) : string := dir ++ "/" ++ name.

Definition certFileOf (fqdn : string) : string :=
  Join certificatesPath (fqdn ++ ".crt").
Definition keyFileOf (fqdn : string) : string :=
  Join certificatesPath (fqdn ++ ".key").

(** ** The world the manager acts on *)

(** What sits at a path of the certificate volume. *)
Inductive node :=
| Regular (content : string)   (** a file that can be read *)
| Unreadable                   (** stat succeeds, reading does not *)
| Inaccessible.                (** stat fails, not with ENOENT *)

(** The actions the manager performs on shared or external state, as
    they happen. *)
Inductive event :=
| EvStat (path : string)
| EvReadFile (path : string)
| EvWriteFile (path : string)
| EvCacheGet (fqdn : string)      (** [m.certs[fqdn]] under [RLock] *)
| EvCachePut (fqdn : string)      (** [m.certs[fqdn] = ...] under [Lock] *)
| EvLoad (fqdn : string)          (** [loadCertFromFile] entered *)
| EvObtain (fqdn : string)        (** [obtainOrRenewCert] entered *)
| EvAcmeOrder (fqdn : string).    (** [legoClient.Certificate.Obtain] sent *)

#[global] Instance node_eq_dec : EqDecision node.
Proof. solve_decision. Defined.
#[global] Instance event_eq_dec : EqDecision event.
Proof. solve_decision. Defined.

Record World := {
  disk : gmap string node;              (** the certificate volume *)
  certs : gmap string tlsCertificate;   (** [Manager.certs] *)
  trace : list event                    (** latest action first *)
}.

Inductive error :=
| ErrNotExist (path : string)           (** a path error for ENOENT *)
| ErrPath (path : string)               (** any other path error *)
| ErrKeyPair (fqdn : string)
| ErrNoCertificate (certFile : string)
| ErrParseCertificate (certFile : string)
| ErrNoClient
| ErrObtain (fqdn : string)
| ErrSaveCertificate (certFile : string)
| ErrSavePrivateKey (keyFile : string)
| ErrMissingSNI
| ErrInconsistent (fqdn : string)
| ErrNotAvailable (fqdn : string).

#[global] Instance error_eq_dec : EqDecision error.
Proof. solve_decision. Defined.

(** [os.IsNotExist]; it does not look through [fmt.Errorf] wrappers. *)
Definition IsNotExist (e : error) : bool :=
  match e with ErrNotExist _ => true | _ => false end.

Inductive result (A : Type) :=
| Ok (a : A)
| Err (e : error).
Arguments Ok {A} a.
Arguments Err {A} e.

(** Go code that returns [(A, error)] and acts on the world. *)
Definition M (A : Type) : Type := World -> result A * World.

#[global] Instance M_ret : MRet M := fun A a w => (Ok a, w).
#[global] Instance M_bind : MBind M := fun A B f m w =>
  match m w with
  | (Ok a, w') => f a w'
  | (Err e, w') => (Err e, w')
  end.

Definition fail {A} (e : error) : M A := fun w => (Err e, w).

(** A primitive step, given by what it does to the world. *)
Definition prim {A} (f : World -> result A * World) : M A := f.

(** Run [m] and hand its error to the caller as a value:
    [v, err := m(...)] followed by a test of [err]. *)
Definition try {A} (m : M A) : M (result A) := fun w =>
  let '(r, w') := m w in (Ok r, w').

Definition emit (e : event) : M unit := fun w =>
  (Ok tt, {| disk := disk w; certs := certs w; trace := e :: trace w |}).

(** ** The file system *)

Definition os_Stat (path : string) : M unit :=
  emit (EvStat path);;
  prim (fun w =>
    match disk w !! path with
    | None => (Err (ErrNotExist path), w)
    | Some Inaccessible => (Err (ErrPath path), w)
    | Some _ => (Ok tt, w)
    end).

Definition os_ReadFile (path : string) : M string :=
  emit (EvReadFile path);;
  prim (fun w =>
    match disk w !! path with
    | None => (Err (ErrNotExist path), w)
    | Some (Regular content) => (Ok content, w)
    | Some _ => (Err (ErrPath path), w)
    end).

(** How one [os.WriteFile] call ends.  The call opens the file with
    O_TRUNC and then writes: a failure either happens at the open, and
    leaves the path as it was, or later, with [written] in the file. *)
Inductive write_outcome :=
| WriteOk
| WriteFail (written : option string).

Definition os_WriteFile (o : write_outcome) (path content : string) : M unit :=
  emit (EvWriteFile path);;
  prim (fun w =>
    let put c := {| disk := <[path := Regular c]> (disk w);
                    certs := certs w; trace := trace w |} in
    match o with
    | WriteOk => (Ok tt, put content)
    | WriteFail None => (Err (ErrPath path), w)
    | WriteFail (Some written) => (Err (ErrPath path), put written)
    end).

(** ** The cache, [Manager.certs] *)

Definition cacheGet (fqdn : string) : M (option tlsCertificate) :=
  emit (EvCacheGet fqdn);;
  prim (fun w => (Ok (certs w !! fqdn), w)).

Definition cachePut (fqdn : string) (c : tlsCertificate) : M unit :=
  emit (EvCachePut fqdn);;
  prim (fun w => (Ok tt, {| disk := disk w;
                            certs := <[fqdn := c]> (certs w);
                            trace := trace w |})).

(** What one call of the manager takes from outside the process. *)
Record Env := {
  now : Z;                              (** [time.Now()] *)
  Obtain : option Resource;             (** the ACME order; [None] fails *)
  certWrite : write_outcome;
  keyWrite : write_outcome
}.

(** [tls.ClientHelloInfo], reduced to the field read here. *)
Record ClientHelloInfo := { ServerName : string }.

Section Manager.
Context `{Crypto}.

(** [loadCertFromFile] loads cert from file, returns expiry time and
    caches it. *)
Definition loadCertFromFile (fqdn : string) : M Z :=
  emit (EvLoad fqdn);;
  let certFile := certFileOf fqdn in
  let keyFile := keyFileOf fqdn in
  certData ← os_ReadFile certFile;
  keyData ← os_ReadFile keyFile;
  match X509KeyPair certData keyData with
  | None => fail (ErrKeyPair fqdn)
  | Some tlsCert =>
      match Certificate tlsCert with
      | [] => fail (ErrNoCertificate certFile)
      | leaf :: _ =>
          match ParseCertificate leaf with
          | None => fail (ErrParseCertificate certFile)
          | Some x509Cert =>
              cachePut fqdn tlsCert;;
              mret (NotAfter x509Cert)
          end
      end
  end.

(** The record persisted for [fqdn], read off the volume: the parsed
    pair and its expiry, if both files are there and pass the parsers.
    This is what a [loadCertFromFile] would find. *)
Definition persisted (d : gmap string node) (fqdn : string)
    : option (tlsCertificate * Z) :=
  match d !! certFileOf fqdn, d !! keyFileOf fqdn with
  | Some (Regular certData), Some (Regular keyData) =>
      match X509KeyPair certData keyData with
      | Some tlsCert =>
          match Certificate tlsCert with
          | leaf :: _ =>
              match ParseCertificate leaf with
              | Some x509Cert => Some (tlsCert, NotAfter x509Cert)
              | None => None
              end
          | [] => None
          end
      | None => None
      end
  | _, _ => None
  end.

(** [legoClient.Certificate.Obtain(request)] for the one-domain request
    the manager builds. *)
Definition Certificate_Obtain (env : Env) (fqdn : string) : M Resource :=
  emit (EvAcmeOrder fqdn);;
  match Obtain env with
  | None => fail (ErrObtain fqdn)
  | Some certRes => mret certRes
  end.

(** manager.go, lines 231-250: what [obtainOrRenewCert] does with the
    issued material. *)
Definition storeObtained (env : Env) (fqdn : string) (certRes : Resource)
    : M unit :=
  let certFile := certFileOf fqdn in
  let keyFile := keyFileOf fqdn in
  saved ← try (os_WriteFile (certWrite env) certFile
                            (res_Certificate certRes));
  match saved with
  | Err _ => fail (ErrSaveCertificate certFile)
  | Ok _ =>
      saved ← try (os_WriteFile (keyWrite env) keyFile
                                (res_PrivateKey certRes));
      match saved with
      | Err _ => fail (ErrSavePrivateKey keyFile)
      | Ok _ =>
          (* the error of the load is logged and dropped *)
          try (loadCertFromFile fqdn);;
          mret tt
      end
  end.

(** [obtainOrRenewCert] obtains or renews cert using Lego. *)
Definition obtainOrRenewCert (m : Manager) (env : Env) (fqdn : string)
    : M unit :=
  emit (EvObtain fqdn);;
  match legoClient m with
  | None => fail ErrNoClient
  | Some _ =>
      certRes ← Certificate_Obtain env fqdn;
      storeObtained env fqdn certRes
  end.

(** manager.go, lines 276-281: the tail of [CheckAndManageCert]. *)
Definition manage (m : Manager) (env : Env) (fqdn : string)
    (needsObtain : bool) (w : World) : World :=
  if needsObtain
  then snd (obtainOrRenewCert m env fqdn w)
  else w.

(** [CheckAndManageCert] checks cert file, triggers obtain/renew if
    needed. *)
Definition CheckAndManageCert (m : Manager) (env : Env) (fqdn : string)
    (w : World) : World :=
  let certFile := certFileOf fqdn in
  match os_Stat certFile w with
  | (Err e, w1) =>
      if IsNotExist e
      then manage m env fqdn true w1
      else w1                                         (* return *)
  | (Ok _, w1) =>
      match loadCertFromFile fqdn w1 with
      | (Err _, w2) => manage m env fqdn false w2
      | (Ok expiry, w2) =>
          manage m env fqdn
                 (Go.Until expiry (now env) <? renewBefore m) w2
      end
  end.

(** [GetCertificateForSNI] retrieves a certificate from cache or loads
    from file. *)
Definition GetCertificateForSNI (hello : ClientHelloInfo)
    : M tlsCertificate :=
  if decide (ServerName hello = "") then fail ErrMissingSNI
  else
    let fqdn := ServerName hello in
    cached ← cacheGet fqdn;
    match cached with
    | Some cert => mret cert
    | None =>
        loaded ← try (loadCertFromFile fqdn);
        match loaded with
        | Ok _ =>
            again ← cacheGet fqdn;
            match again with
            | Some cert => mret cert
            | None => fail (ErrInconsistent fqdn)
            end
        | Err _ => fail (ErrNotAvailable fqdn)
        end
    end.

End Manager.

(** ** Concurrent callers of [CheckAndManageCert]

    The router calls [CheckAndManageCert] from one goroutine per backend,
    outside every lock.  A call is cut at the points where it touches
    state other calls can see: the stat, the load, the moment the ACME
    order leaves, and the moment its answer arrives. *)

Inductive pc :=
| AtStat        (** about to [os.Stat] the certificate file *)
| AtLoad        (** the file exists; about to [loadCertFromFile] *)
| AtObtain      (** [needsObtain] is set; about to [obtainOrRenewCert] *)
| InFlight      (** inside [legoClient.Certificate.Obtain] *)
| Returned.

#[global] Instance pc_eq_dec : EqDecision pc.
Proof. solve_decision. Defined.

(** One running call. *)
Record call := {
  c_fqdn : string;
  c_env : Env;
  c_pc : pc
}.

Section Concurrent.
Context `{Crypto}.

(** [obtainOrRenewCert] up to the point where the order is sent. *)
Definition sendOrder (m : Manager) (fqdn : string) : M unit :=
  emit (EvObtain fqdn);;
  match legoClient m with
  | None => fail ErrNoClient
  | Some _ => emit (EvAcmeOrder fqdn)
  end.

(** [obtainOrRenewCert] from the point where the answer arrives. *)
Definition receiveOrder (env : Env) (fqdn : string) : M unit :=
  match Obtain env with
  | None => fail (ErrObtain fqdn)
  | Some certRes => storeObtained env fqdn certRes
  end.

(** The next atomic step of one call. *)
Definition step (m : Manager) (c : call) (w : World) : call * World :=
  let fqdn := c_fqdn c in
  let goto p := {| c_fqdn := fqdn; c_env := c_env c; c_pc := p |} in
  match c_pc c with
  | AtStat =>
      match os_Stat (certFileOf fqdn) w with
      | (Err e, w1) =>
          if IsNotExist e then (goto AtObtain, w1) else (goto Returned, w1)
      | (Ok _, w1) => (goto AtLoad, w1)
      end
  | AtLoad =>
      match loadCertFromFile fqdn w with
      | (Err _, w1) => (goto Returned, w1)
      | (Ok expiry, w1) =>
          if Go.Until expiry (now (c_env c)) <? renewBefore m
          then (goto AtObtain, w1)
          else (goto Returned, w1)
      end
  | AtObtain =>
      match sendOrder m fqdn w with
      | (Err _, w1) => (goto Returned, w1)
      | (Ok _, w1) => (goto InFlight, w1)
      end
  | InFlight => (goto Returned, snd (receiveOrder (c_env c) fqdn w))
  | Returned => (c, w)
  end.

(** The [i]-th call of the pool takes its next step. *)
Fixpoint stepAt (m : Manager) (i : nat) (pool : list call) (w : World)
    {struct pool} : list call * World :=
  match pool, i with
  | [], _ => ([], w)
  | c :: rest, O => let '(c', w') := step m c w in (c' :: rest, w')
  | c :: rest, S j =>
      let '(rest', w') := stepAt m j rest w in (c :: rest', w')
  end.

(** An interleaving: the indices of the calls, in the order they step. *)
Definition run (m : Manager) (sched : list nat)
    (cfg : list call * World) : list call * World :=
  foldl (fun cfg i => stepAt m i (fst cfg) (snd cfg)) cfg sched.

End Concurrent.

(** The calls started for [fqdn], one per environment. *)
Definition spawn (fqdn : string) (envs : list Env) : list call :=
  map (fun env => {| c_fqdn := fqdn; c_env := env; c_pc := AtStat |}) envs.

(** The same call at another point. *)
Definition goto (p : pc) (c : call) : call :=
  {| c_fqdn := c_fqdn c; c_env := c_env c; c_pc := p |}.



(** A call that may still enter [obtainOrRenewCert]. *)
Definition pending (c : call) : nat :=
  match c_pc c with
  | AtStat | AtLoad | AtObtain => 1
  | InFlight | Returned => 0
  end.


(** ** Reading traces *)

(** How often an action occurs in a trace. *)
Definition occurrences (e : event) (tr : list event) : nat :=
  length (filter (fun e' => e' = e) tr).

(** The actions that belong to certificate issuance. *)
Definition issues (e : event) : bool :=
  match e with EvObtain _ | EvAcmeOrder _ => true | _ => false end.

Definition not_obtain (e : event) : Prop := forall f, e <> EvObtain f.

Definition quiet (e : event) : Prop :=
  (forall f, e <> EvObtain f) /\ (forall f, e <> EvAcmeOrder f).

(** [extends P base tr]: the trace [tr] is [base] with further actions
    in front, each satisfying [P]. *)
Inductive extends (P : event -> Prop) (base : list event)
    : list event -> Prop :=
| extends_refl : extends P base base
| extends_cons e tr : P e -> extends P base tr -> extends P base (e :: tr).


(** ** Two requirements of the specification, read on this model *)


(** A failed obtain leaves the record of the fqdn as it was, in the cache
    and on the volume. *)
Definition failed_obtain_keeps_record `{Crypto} : Prop :=
  forall m env fqdn w e w',
    obtainOrRenewCert m env fqdn w = (Err e, w') ->
    certs w' !! fqdn = certs w !! fqdn
    /\ disk w' !! certFileOf fqdn = disk w !! certFileOf fqdn
    /\ disk w' !! keyFileOf fqdn = disk w !! keyFileOf fqdn.

(** ** A stand-in for the parsers

    To run the model on concrete files: a certificate file holds its
    expiry, in nanoseconds, as a decimal number, and pairs with the key
    file that reads "key:" followed by the same number. *)
Definition toyCrypto : Crypto := {|
  X509KeyPair certData keyData :=
    if decide (keyData = "key:" ++ certData)
    then Some {| Certificate := [certData]; PrivateKey := keyData |}
    else None;
  ParseCertificate der :=
    match Go.Atoi der with
    | Some t => Some {| NotAfter := t |}
    | None => None
    end
|}.

End certs.

(* ===================================================================== *)
(** * The Gandi LiveDNS provider of the DNS-01 challenge                  *)
(* ===================================================================== *)

Module gandi.

Definition gandiAPI : string := "https://api.gandi.net".

(** [ManualGandiHTTPProvider], without its HTTP client. *)
Record ManualGandiHTTPProvider := {
  apiKey : string;
  baseZone : string
}.

Record Request := {
  Method : string;
  URL : string;
  Authorization : string;
  (** the TXT value of the record set, when the request has a body *)
  Body : option string
}.

Record Response := { StatusCode : Z; RespBody : string }.

(** What the provider takes from outside: lego's [dns01.GetRecord],
    whether [http.NewRequest] accepts a method and URL, and the HTTP
    exchange ([None] is a transport error). *)
Record Env := {
  GetRecord : string -> string -> string * string;
  NewRequest : string -> string -> bool;
  Do : Request -> option Response
}.

Inductive error :=
| ErrDerive (fqdn zone : string)
| ErrRequest
| ErrSend
| ErrStatus (code : Z) (body : string).

Definition StatusCreated : Z := 201.
Definition StatusNoContent : Z := 204.
Definition StatusNotFound : Z := 404.

(** Lines 39-42 of [Present] and 85-88 of [CleanUp]: the record name
    under the base zone, or the error both functions return. *)
Definition recordNameOf (p : ManualGandiHTTPProvider) (fqdn : string)
    : error + string :=
  let recordName := Go.TrimSuffix fqdn ("." ++ baseZone p ++ ".") in
  if decide (recordName = fqdn)
  then inl (ErrDerive fqdn (baseZone p))
  else inr recordName.

(** [Present] creates the TXT record using Gandi LiveDNS API.  The result
    is the returned error, if any, and the requests that were sent.  The
    payload is a map of strings and a number, which [json.Marshal] always
    encodes; it is carried as the TXT value. *)
Definition Present (env : Env) (p : ManualGandiHTTPProvider)
    (domain token keyAuth : string) : option error * list Request :=
  let '(fqdn, value) := GetRecord env domain keyAuth in
  match recordNameOf p fqdn with
  | inl e => (Some e, [])
  | inr recordName =>
      let apiURL := gandiAPI ++ "/v5/livedns/domains/" ++ baseZone p
                             ++ "/records/" ++ recordName in
      if negb (NewRequest env "POST" apiURL) then (Some ErrRequest, [])
      else
        let req := {| Method := "POST"; URL := apiURL;
                      Authorization := "Bearer " ++ apiKey p;
                      Body := Some value |} in
        match Do env req with
        | None => (Some ErrSend, [req])
        | Some resp =>
            if decide (StatusCode resp <> StatusCreated)
            then (Some (ErrStatus (StatusCode resp) (RespBody resp)), [req])
            else (None, [req])
        end
  end.

(** [CleanUp] removes the TXT record using Gandi LiveDNS API. *)
Definition CleanUp (env : Env) (p : ManualGandiHTTPProvider)
    (domain token keyAuth : string) : option error * list Request :=
  let '(fqdn, _) := GetRecord env domain keyAuth in
  match recordNameOf p fqdn with
  | inl e => (Some e, [])
  | inr recordName =>
      let apiURL := gandiAPI ++ "/v5/livedns/domains/" ++ baseZone p
                             ++ "/records/" ++ recordName ++ "/TXT" in
      if negb (NewRequest env "DELETE" apiURL) then (Some ErrRequest, [])
      else
        let req := {| Method := "DELETE"; URL := apiURL;
                      Authorization := "Bearer " ++ apiKey p;
                      Body := None |} in
        match Do env req with
        | None => (Some ErrSend, [req])
        | Some resp =>
            if decide (StatusCode resp <> StatusNoContent
                       /\ StatusCode resp <> StatusNotFound)
            then (Some (ErrStatus (StatusCode resp) (RespBody resp)), [req])
            else (None, [req])
        end
  end.

(** The challenge name lego derives when it follows no CNAME; the TXT
    value, a digest of the key authorisation, is left as it is given. *)
Definition plainGetRecord (domain keyAuth : string) : string * string :=
  ("_acme-challenge." ++ domain ++ ".", keyAuth).

End gandi.

(* ===================================================================== *)
(** * Concrete situations                                                 *)
(* ===================================================================== *)

Module scenarios.
Import podman proxy certs.

Definition net (ip : string) : NetworkDetails := {| IPAddress := ip |}.

(** Scenario A of the specification: one backend on one network. *)
Definition c1 : ContainerInfo :=
  {| ID := "c1"; Name := "app"; ExposedPort := "8080";
     FQDN := "app.example.com" |}.

Definition oneNet : gmap string NetworkDetails :=
  {[ "podman" := net "10.0.0.5" ]}.

Definition inspectC1 (id : string) : option Inspection :=
  if decide (id = "c1")
  then Some {| data := {| Id := "c1"; Networks := oneNet |};
               visit := [("podman", net "10.0.0.5")] |}
  else None.

Definition envA : TickEnv :=
  {| ListContainers := Some [c1];
     InspectContainer := inspectC1;
     schedule := [c1] |}.

(** A tick whose listing fails. *)
Definition envDown : TickEnv :=
  {| ListContainers := None;
     InspectContainer := inspectC1;
     schedule := [] |}.

(** A router that serves two backends. *)
Definition twoRoutes : Router :=
  {| routes :=
       {[ "app.example.com" := {| TargetIP := "10.0.0.5"; TargetPort := 8080 |};
          "old.example.com" := {| TargetIP := "10.0.0.6"; TargetPort := 80 |} ]} |}.



(** The certificate manager as [LoadConfig] and [NewManager] set it up:
    production directory, renewal thirty days before expiry. *)
Definition day : Z := 86400 * 10 ^ 9.
Definition host : string := "app.example.com".
Definition manager : Manager :=
  {| legoClient :=
       Some {| CADirURL := "https://acme-v02.api.letsencrypt.org/directory" |};
     renewBefore := 30 * day |}.

(** A volume that holds the pair of [host], expiring at [t]. *)
Definition pairOn (t : string) : gmap string node :=
  {[ certFileOf host := Regular t; keyFileOf host := Regular ("key:" ++ t) ]}.
Definition in10days : string := "864000000000000".
Definition in90days : string := "7776000000000000".

Definition emptyVolume : World := {| disk := ∅; certs := ∅; trace := [] |}.
Definition stored : World :=
  {| disk := pairOn in10days; certs := ∅; trace := [] |}.

Definition issued : Resource :=
  {| res_Certificate := in90days; res_PrivateKey := "key:" ++ in90days |}.
Definition allGoesWell : Env :=
  {| now := 0; Obtain := Some issued;
     certWrite := WriteOk; keyWrite := WriteOk |}.
Definition keyWriteFails : Env :=
  {| now := 0; Obtain := Some issued;
     certWrite := WriteOk; keyWrite := WriteFail None |}.

(** The DNS-01 provider for the zone example.com. *)
Definition provider : gandi.ManualGandiHTTPProvider :=
  {| gandi.apiKey := "secret"; gandi.baseZone := "example.com" |}.
Definition dnsEnv : gandi.Env :=
  {| gandi.GetRecord := gandi.plainGetRecord;
     gandi.NewRequest := fun _ _ => true;
     gandi.Do := fun _ =>
       Some {| gandi.StatusCode := 201; gandi.RespBody := "" |} |}.

End scenarios.

(* ===================================================================== *)
(** * More of the Go standard library                                     *)
(* ===================================================================== *)

Module text.

(** [strings.TrimSpace] and [strings.ToLower] work on Unicode code points;
    they are taken as they are, without a model of UTF-8. *)
Class Unicode := {
  TrimSpace : string -> string;
  ToLower : string -> string
}.

Definition tab : ascii := ascii_of_nat 9.
Definition newline : ascii := ascii_of_nat 10.
Definition carriageReturn : ascii := ascii_of_nat 13.

(** Whether the byte [a] occurs in [s]. *)
Fixpoint contains (a : ascii) (s : string) : bool :=
  match s with
  | EmptyString => false
  | String b rest => if decide (b = a) then true else contains a rest
  end.

(** [strings.TrimPrefix]: s without the leading prefix, or s itself. *)
Definition TrimPrefix (s prefix : string) : string :=
  if String.prefix prefix s
  then substring (String.length prefix)
                 (String.length s - String.length prefix) s
  else s.

(** [s] cut at the first occurrence of the byte [sep]: what stands before
    it and what stands after it. *)
Fixpoint cut (sep : ascii) (s : string) : option (string * string) :=
  match s with
  | EmptyString => None
  | String a rest =>
      if decide (a = sep) then Some (EmptyString, rest)
      else match cut sep rest with
           | Some (before, after) => Some (String a before, after)
           | None => None
           end
  end.

(** [strings.SplitN(s, sep, n)] for a one-byte separator and [n >= 0]: at
    most [n] pieces, the last one being the unsplit remainder. *)
Fixpoint SplitN (s : string) (sep : ascii) (n : nat) : list string :=
  match n with
  | O => []
  | S O => [s]
  | S n' =>
      match cut sep s with
      | None => [s]
      | Some (before, after) => before :: SplitN after sep n'
      end
  end.

(** [s] split at every occurrence of [sep]; never empty. *)
Fixpoint splitAll (sep : ascii) (s : string) : list string :=
  match s with
  | EmptyString => [EmptyString]
  | String a rest =>
      if decide (a = sep) then EmptyString :: splitAll sep rest
      else match splitAll sep rest with
           | piece :: pieces => String a piece :: pieces
           | [] => [String a EmptyString]
           end
  end.

(** [bufio.MaxScanTokenSize]: the buffer a [bufio.Scanner] may grow to. *)
Definition MaxScanTokenSize : nat := 64 * 1024.

(** The lines a [bufio.Scanner] with the default split function finds in
    [input]: the pieces between newlines, without the empty piece after a
    final newline. *)
Definition rawLines (input : string) : list string :=
  let pieces := splitAll newline input in
  match last pieces with
  | Some EmptyString => removelast pieces
  | _ => pieces
  end.

(** [dropCR] of bufio: one trailing carriage return is not part of the
    line. *)
Definition dropCR (line : string) : string :=
  Go.TrimSuffix line (String carriageReturn EmptyString).

(** A loop [for scanner.Scan() { ... scanner.Text() ... }] followed by a
    test of [scanner.Err()]: the lines in order, or [None] when a line,
    with its end-of-line marker, does not fit the buffer. *)
Definition ScanLines (input : string) : option (list string) :=
  let raw := rawLines input in
  if forallb (fun l => (String.length l <? MaxScanTokenSize)%nat) raw
  then Some (map dropCR raw)
  else None.

(** The pieces put together again, [sep] between them. *)
Fixpoint joinWith (sep : ascii) (pieces : list string) : string :=
  match pieces with
  | [] => EmptyString
  | [piece] => piece
  | piece :: rest => piece ++ String sep (joinWith sep rest)
  end.

(** A stand-in for [Unicode] on ASCII text, where both functions are what
    Go computes: white space is tab, newline, vertical tab, form feed,
    carriage return and space; letters A to Z have a lower case. *)
Definition asciiSpace (a : ascii) : bool :=
  let n := nat_of_ascii a in
  ((9 <=? n) && (n <=? 13) || (n =? 32))%nat.

Fixpoint trimLeft (s : string) : string :=
  match s with
  | String a rest => if asciiSpace a then trimLeft rest else s
  | EmptyString => EmptyString
  end.

Fixpoint trimRight (s : string) : string :=
  match s with
  | EmptyString => EmptyString
  | String a rest =>
      match trimRight rest with
      | EmptyString => if asciiSpace a then EmptyString
                       else String a EmptyString
      | kept => String a kept
      end
  end.

Definition lowerByte (a : ascii) : ascii :=
  let n := nat_of_ascii a in
  if ((65 <=? n) && (n <=? 90))%nat then ascii_of_nat (n + 32) else a.

Fixpoint lowerBytes (s : string) : string :=
  match s with
  | EmptyString => EmptyString
  | String a rest => String (lowerByte a) (lowerBytes rest)
  end.

Definition asciiText : Unicode :=
  {| TrimSpace s := trimRight (trimLeft s); ToLower := lowerBytes |}.

End text.

(* ===================================================================== *)
(** * internal/podman/client.go: the container listing                    *)
(* ===================================================================== *)

Module podman_client.
Import podman text.

Section Listing.
Context `{Unicode}.

(** client.go, lines 59-76: one line of the listing.  [None] is a line
    the loop skips with a warning. *)
Definition parseLine (line : string) : option ContainerInfo :=
  match SplitN line tab 4 with
  | [id; names; port; label] =>
      let name := TrimPrefix names "/" in
      let fqdn := TrimSpace label in
      if decide (name <> "" /\ id <> "" /\ port <> "" /\ fqdn <> "")
      then Some {| ID := id; Name := name; ExposedPort := port; FQDN := fqdn |}
      else None
  | _ => None
  end.

(** [ListContainers] lists running containers with required labels.
    [output] is what [ssh.RunCommand] returned, [None] for its error; the
    result is [None] for either error return. *)
Definition ListContainers (output : option string)
    : option (list ContainerInfo) :=
  match output with
  | None => None
  | Some out =>
      match ScanLines out with
      | None => None
      | Some lines => Some (omap parseLine lines)
      end
  end.

End Listing.

(** What podman prints for one container under the format of the
    command: id, names, the two labels, tabs between them. *)
Definition formatLine (c : ContainerInfo) : string :=
  joinWith tab [ID c; Name c; ExposedPort c; FQDN c].

(** The whole listing, one line per container. *)
Definition formatListing (cs : list ContainerInfo) : string :=
  foldr (fun c rest => formatLine c ++ String newline rest) "" cs.

(** A container whose fields can stand in a line as they are. *)
Definition printable `{Unicode} (c : ContainerInfo) : Prop :=
  ID c <> "" /\ Name c <> "" /\ ExposedPort c <> "" /\ FQDN c <> ""
  /\ contains tab (ID c) = false /\ contains tab (Name c) = false
  /\ contains tab (ExposedPort c) = false
  /\ String.prefix "/" (Name c) = false
  /\ TrimSpace (FQDN c) = FQDN c
  /\ contains newline (formatLine c) = false
  /\ Go.HasSuffix (formatLine c) (String carriageReturn "") = false
  /\ (String.length (formatLine c) < MaxScanTokenSize)%nat.

End podman_client.

(* ===================================================================== *)
(** * internal/proxy/router.go: the update loop                           *)
(* ===================================================================== *)

Module reconcile.
Import podman proxy.

(** What the [select] of [RunUpdateLoop] receives: a tick of the ticker,
    with everything that tick takes from outside, or the end of the
    context. *)
Inductive signal :=
| Tick (env : TickEnv)
| Done.

(** [RunUpdateLoop] starts the periodic route update process.  The
    signals are those the loop receives, in order; the result is the
    router when the loop returns, or when the signals end. *)
Fixpoint RunUpdateLoop (signals : list signal) (r : Router) : Router :=
  match signals with
  | [] => r
  | Done :: _ => r
  | Tick env :: rest => RunUpdateLoop rest (fst (updateRoutes env r))
  end.

(** A route as a resolved backend yields it: an address, and a port that
    is an [int]. *)
Definition resolved (rt : Route) : Prop :=
  TargetIP rt <> "" /\ Go.minInt64 <= TargetPort rt <= Go.maxInt64.

(** The backends of a schedule claim pairwise different fqdns. *)
Definition distinct_fqdns (cs : list ContainerInfo) : Prop :=
  NoDup (map FQDN cs).

(** The same tick with its goroutines taking the mutex in another order. *)
Definition reschedule (env : TickEnv) (sched : list ContainerInfo) : TickEnv :=
  {| ListContainers := ListContainers env;
     InspectContainer := InspectContainer env;
     schedule := sched |}.

(** The fqdn a goroutine hands to [CheckAndManageCert], if it does: its
    backend resolved, to a route the old table does not hold for it. *)
Definition checkOf (env : TickEnv) (old : gmap string Route)
    (c : ContainerInfo) : option string :=
  match resolveRoute env c with
  | Some rt => if decide (old !! FQDN c = Some rt) then None else Some (FQDN c)
  | None => None
  end.

(** Whether the backend of a goroutine resolved. *)
Definition resolves (env : TickEnv) (c : ContainerInfo) : bool :=
  match resolveRoute env c with Some _ => true | None => false end.

End reconcile.

(* ===================================================================== *)
(** * internal/config                                                     *)
(* ===================================================================== *)

Module config.
Import text.

(** [time.Duration] units, in nanoseconds. *)
Definition Second : Z := 10 ^ 9.
Definition Hour : Z := 3600 * Second.

(** [Config] holds the application configuration. *)
Record Config := {
  UpdateInterval : Z;
  CertCheckInterval : Z;
  RenewBefore : Z;
  SSHUser : string;
  SSHHost : string;
  SSHPort : string;
  GandiAPIKey : string;
  ACMEEmail : string;
  GandiZone : string;
  ACMEStaging : bool
}.

(** The errors of [LoadConfig], by the variable they name. *)
Inductive error :=
| MissingSSHHost
| MissingSSHPort
| MissingGandiAPIKey
| MissingACMEEmail
| MissingGandiZone.

(** [getEnv]: the value of the variable if it exists, empty or not. *)
Definition getEnv (environ : gmap string string) (key fallback : string)
    : string :=
  match environ !! key with
  | Some value => value
  | None => fallback
  end.

(** [strconv.ParseBool]. *)
Definition ParseBool (str : string) : option bool :=
  if bool_decide (str ∈ ["1"; "t"; "T"; "TRUE"; "true"; "True"]) then Some true
  else if bool_decide (str ∈ ["0"; "f"; "F"; "FALSE"; "false"; "False"])
       then Some false
       else None.

Section Load.
Context `{Unicode}.

Definition getEnvAsBool (environ : gmap string string) (key : string)
    (fallback : bool) : bool :=
  match environ !! key with
  | Some valueStr =>
      match ParseBool (ToLower valueStr) with
      | Some value => value
      | None => fallback
      end
  | None => fallback
  end.

(** [LoadConfig] loads configuration from environment variables. *)
Definition LoadConfig (environ : gmap string string) : error + Config :=
  let cfg :=
    {| UpdateInterval := 10 * Second;
       CertCheckInterval := 12 * Hour;
       RenewBefore := 30 * 24 * Hour;
       SSHUser := getEnv environ "PODMAN_SSH_USER" "core";
       SSHHost := getEnv environ "PODMAN_SSH_HOST" "";
       SSHPort := getEnv environ "PODMAN_SSH_PORT" "";
       GandiAPIKey := getEnv environ "GANDI_API_KEY" "";
       ACMEEmail := getEnv environ "ACME_EMAIL" "";
       GandiZone := getEnv environ "GANDI_ZONE" "";
       ACMEStaging := getEnvAsBool environ "LEGO_STAGING" false |} in
  if decide (SSHHost cfg = "") then inl MissingSSHHost
  else if decide (SSHPort cfg = "") then inl MissingSSHPort
  else if decide (GandiAPIKey cfg = "") then inl MissingGandiAPIKey
  else if decide (ACMEEmail cfg = "") then inl MissingACMEEmail
  else if decide (GandiZone cfg = "") then inl MissingGandiZone
  else inr cfg.

End Load.

(** A variable that is set to something. *)
Definition provided (environ : gmap string string) (key : string) : Prop :=
  exists value, environ !! key = Some value /\ value <> "".

(** The variables [LoadConfig] validates, in the order of its checks,
    each with the error that names it. *)
Definition required : list (string * error) :=
  [ ("PODMAN_SSH_HOST", MissingSSHHost);
    ("PODMAN_SSH_PORT", MissingSSHPort);
    ("GANDI_API_KEY", MissingGandiAPIKey);
    ("ACME_EMAIL", MissingACMEEmail);
    ("GANDI_ZONE", MissingGandiZone) ].

End config.

(* ===================================================================== *)
(** * Reading what the certificate manager did                            *)
(* ===================================================================== *)

Module frames.
Import text certs.

(** A name without a path separator: under [certificatesPath] it names
    the file [filepath.Join] says, with no cleaning of the path. *)
Definition plainName (name : string) : Prop :=
  contains "/"%char name = false.

(** What a call of the manager for [fqdn] may change from [w] to [w']:
    the cached record of [fqdn], its certificate file and its key file,
    and nothing else in the cache or on the volume. *)
Definition touches_only (fqdn : string) (w w' : World) : Prop :=
  (forall k, k <> fqdn -> certs.certs w' !! k = certs.certs w !! k)
  /\ (forall p, p <> certFileOf fqdn -> p <> keyFileOf fqdn ->
                disk w' !! p = disk w !! p).

(** The same for calls made for any of several fqdns. *)
Definition touches_among (fqdns : list string) (w w' : World) : Prop :=
  (forall k, k ∉ fqdns -> certs.certs w' !! k = certs.certs w !! k)
  /\ (forall p, (forall f, f ∈ fqdns -> p <> certFileOf f /\ p <> keyFileOf f) ->
                disk w' !! p = disk w !! p).

(** What the material of an ACME order parses to, by the steps of
    [loadCertFromFile]: the pair and the expiry of its leaf. *)
Definition issuedRecord `{Crypto} (certRes : Resource)
    : option (tlsCertificate * Z) :=
  match X509KeyPair (res_Certificate certRes) (res_PrivateKey certRes) with
  | Some tlsCert =>
      match Certificate tlsCert with
      | leaf :: _ =>
          match ParseCertificate leaf with
          | Some x509Cert => Some (tlsCert, NotAfter x509Cert)
          | None => None
          end
      | [] => None
      end
  | None => None
  end.

(** The certificate checks of a tick as concurrent calls: one call of
    [CheckAndManageCert] per fqdn a goroutine hands to the manager, each
    with what it takes from outside. *)
Definition tickCalls (checks : list string) (envs : list Env) : list call :=
  zip_with (fun fqdn env => {| c_fqdn := fqdn; c_env := env; c_pc := AtStat |})
           checks envs.

End frames.

(* ===================================================================== *)
(** * The provider constructor and the account of the manager             *)
(* ===================================================================== *)

Module setup.
Import text certs gandi config.

(** [NewManualGandiHTTPProvider] creates a new provider instance. *)
Definition NewManualGandiHTTPProvider `{Unicode} (apiKey baseZone : string)
    : ManualGandiHTTPProvider :=
  let trimmedZone := TrimSpace baseZone in
  let trimmedZone := Go.TrimSuffix trimmedZone "." in
  {| gandi.apiKey := apiKey; gandi.baseZone := trimmedZone |}.

Definition acmeAccountKeyFile : string := "acme_account.key".

Definition accountKeyPath : string := Join certificatesPath acmeAccountKeyFile.

(** [pem.Block], without headers. *)
Record Block := { Type_ : string; Bytes : string }.

(** encoding/pem and crypto/x509 on EC keys, for a type [Key] of private
    keys; [None] is a nil block or a returned error. *)
Class KeyCodec (Key : Type) := {
  pem_Decode : string -> option Block;
  pem_EncodeToMemory : Block -> string;
  ParseECPrivateKey : string -> option Key;
  MarshalECPrivateKey : Key -> option string
}.

Inductive keyError :=
| ErrDecodePEM
| ErrParseKey
| ErrGenerateKey
| ErrMarshalKey
| ErrReadKey.

(** What one call of [loadOrCreateACMEKey] takes from outside: the key
    [ecdsa.GenerateKey] draws, [None] for its error, and how the write of
    the key file ends. *)
Record KeyEnv (Key : Type) := {
  generated : option Key;
  accountKeyWrite : write_outcome
}.
Arguments generated {Key} _.
Arguments accountKeyWrite {Key} _.

Section Account.
Context {Key : Type} `{KeyCodec Key} `{Unicode}.

(** [loadOrCreateACMEKey] tries to load the key, generates and saves if
    not found. *)
Definition loadOrCreateACMEKey (env : KeyEnv Key) (w : World)
    : (keyError + Key) * World :=
  let keyPath := accountKeyPath in
  match os_ReadFile keyPath w with
  | (Ok pemData, w1) =>
      match pem_Decode pemData with
      | None => (inl ErrDecodePEM, w1)
      | Some block =>
          if decide (Type_ block <> "EC PRIVATE KEY")
          then (inl ErrDecodePEM, w1)
          else
            match ParseECPrivateKey (Bytes block) with
            | None => (inl ErrParseKey, w1)
            | Some privateKey => (inr privateKey, w1)
            end
      end
  | (Err e, w1) =>
      if IsNotExist e then
        match generated env with
        | None => (inl ErrGenerateKey, w1)
        | Some privateKey =>
            match MarshalECPrivateKey privateKey with
            | None => (inl ErrMarshalKey, w1)
            | Some keyBytes =>
                let pemBlock :=
                  {| Type_ := "EC PRIVATE KEY"; Bytes := keyBytes |} in
                (* a failed write is logged and the key returned anyway *)
                (inr privateKey,
                 snd (os_WriteFile (accountKeyWrite env) keyPath
                        (pem_EncodeToMemory pemBlock) w1))
            end
        end
      else (inl ErrReadKey, w1)
  end.

(** What [NewManager] takes from outside, beyond the key: whether
    [lego.NewClient] and [SetDNS01Provider] succeed, and the account that
    [ResolveAccountByKey] and [Register] return, [None] for an error. *)
Record ManagerEnv := {
  keyEnv : KeyEnv Key;
  newClient : bool;
  setProvider : bool;
  resolveAccount : option string;
  register : option string
}.

(** [ACMEUser]. *)
Record ACMEUser := {
  Email : string;
  Registration : string;
  key : Key
}.

(** What [NewManager] builds: the manager, with its user, and the DNS
    provider it hands to the client. *)
Record Built := {
  manager : Manager;
  legoUser : ACMEUser;
  dnsProvider : ManualGandiHTTPProvider
}.

Inductive managerError :=
| ErrAccountKey (e : keyError)
| ErrNewClient
| ErrSetProvider
| ErrAccount.

Definition stagingURL : string :=
  "https://acme-staging-v02.api.letsencrypt.org/directory".
Definition productionURL : string :=
  "https://acme-v02.api.letsencrypt.org/directory".

(** [NewManager] initializes the certificate manager.  The cache of the
    new manager is empty.  The [os.MkdirAll] of the certificate directory
    comes first; its error is logged and dropped, and the volume, a map
    from paths to files, has no directories to create. *)
Definition NewManager (cfg : Config) (env : ManagerEnv) (w : World)
    : (managerError + Built) * World :=
  match loadOrCreateACMEKey (keyEnv env) w with
  | (inl e, w1) => (inl (ErrAccountKey e), w1)
  | (inr privateKey, w1) =>
      let CADirURL := if ACMEStaging cfg then stagingURL else productionURL in
      if negb (newClient env) then (inl ErrNewClient, w1)
      else
        let manualProvider :=
          NewManualGandiHTTPProvider (GandiAPIKey cfg) (GandiZone cfg) in
        if negb (setProvider env) then (inl ErrSetProvider, w1)
        else
          let registration :=
            match resolveAccount env with
            | Some account => Some account
            | None => register env
            end in
          match registration with
          | None => (inl ErrAccount, w1)
          | Some account =>
              (inr {| manager :=
                        {| legoClient := Some {| certs.CADirURL := CADirURL |};
                           renewBefore := RenewBefore cfg |};
                      legoUser := {| Email := ACMEEmail cfg;
                                     Registration := account;
                                     key := privateKey |};
                      dnsProvider := manualProvider |},
               {| disk := disk w1; certs := ∅; trace := trace w1 |})
          end
  end.

End Account.

(** A stand-in for the codec, to run the model: a key is a string, its
    encoding the string itself, and its PEM file the encoding after the
    block type and a colon. *)
Definition toyCodec : KeyCodec string := {|
  pem_Decode data :=
    match text.cut ":"%char data with
    | Some (type, bytes) => Some {| Type_ := type; Bytes := bytes |}
    | None => None
    end;
  pem_EncodeToMemory b := Type_ b ++ ":" ++ Bytes b;
  ParseECPrivateKey bytes := if decide (bytes = "") then None else Some bytes;
  MarshalECPrivateKey k := Some k
|}.

End setup.

(* ===================================================================== *)
(** * More concrete situations                                            *)
(* ===================================================================== *)

Module examples.
Import podman proxy certs config setup scenarios.

(** A second backend, on the network of the first. *)
Definition c2 : ContainerInfo :=
  {| ID := "c2"; Name := "old"; ExposedPort := "80";
     FQDN := "old.example.com" |}.

Definition inspectBoth (id : string) : option Inspection :=
  if decide (id = "c2")
  then Some {| data := {| Id := "c2";
                          Networks := {[ "podman" := net "10.0.0.6" ]} |};
               visit := [("podman", net "10.0.0.6")] |}
  else inspectC1 id.

Definition envTwo : TickEnv :=
  {| ListContainers := Some [c1; c2];
     InspectContainer := inspectBoth;
     schedule := [c1; c2] |}.

(** A backend whose port label is no number. *)
Definition c3 : ContainerInfo :=
  {| ID := "c3"; Name := "web"; ExposedPort := "http";
     FQDN := "web.example.com" |}.

(** The environment of a deployment. *)
Definition environment : gmap string string :=
  {[ "PODMAN_SSH_HOST" := "10.0.0.1";
     "PODMAN_SSH_PORT" := "22";
     "GANDI_API_KEY" := "secret";
     "ACME_EMAIL" := "ops@example.com";
     "GANDI_ZONE" := "example.com" ]}.

(** A first start: the key is generated and saved. *)
Definition firstStart : KeyEnv string :=
  {| generated := Some "k1"; accountKeyWrite := WriteOk |}.

(** A start on a volume that cannot be written. *)
Definition readOnlyStart : KeyEnv string :=
  {| generated := Some "k1"; accountKeyWrite := WriteFail None |}.

(** A volume that holds the account key of [firstStart]. *)
Definition keyOnVolume : World :=
  {| disk := {[ accountKeyPath := Regular "EC PRIVATE KEY:k1" ]};
     certs := ∅; trace := [] |}.

Definition startEnv : ManagerEnv :=
  {| keyEnv := firstStart; newClient := true; setProvider := true;
     resolveAccount := None; register := Some "account-1" |}.

End examples.

(* ===================================================================== *)
(** * The proxy handler                                                   *)
(* ===================================================================== *)

Module handler.
Import text proxy.

(** What the handler takes from net and net/textproto: [SplitHostPort],
    [None] for its error, and the canonical form of a header key. *)
Class Net := {
  SplitHostPort : string -> option (string * string);
  CanonicalMIMEHeaderKey : string -> string
}.

(** [fmt.Sprintf("%d", n)] for an [int]. *)
Definition formatInt (n : Z) : string := NilZero.string_of_int (Z.to_int n).

(** [net.JoinHostPort]: a host with a colon is put in brackets. *)
Definition JoinHostPort (host port : string) : string :=
  if contains ":"%char host then "[" ++ host ++ "]:" ++ port
  else host ++ ":" ++ port.

(** [http.Request], reduced to what the director reads and writes. *)
Record Request := {
  Host : string;
  URL_Scheme : string;
  URL_Host : string;
  Header : gmap string (list string)   (** [http.Header] *)
}.






Definition noRoute : string := "No route found".

Section Handler.
Context `{Net}.

Definition Header_Get (h : gmap string (list string)) (key : string)
    : string :=
  match h !! CanonicalMIMEHeaderKey key with
  | Some (value :: _) => value
  | _ => ""
  end.

Definition Header_Set (h : gmap string (list string)) (key value : string)
    : gmap string (list string) :=
  <[CanonicalMIMEHeaderKey key := [value]]> h.

(** Lines 15-20 of the director: the Host of the request, without its
    port if it has one. *)
Definition routeKey (req : Request) : string :=
  let fqdn := Host req in
  match SplitHostPort fqdn with
  | Some (host, _) => host
  | None => fqdn
  end.

(** The [Director] of the reverse proxy. *)
Definition director (router : Router) (req : Request) : Request :=
  let fqdn := routeKey req in
  match GetRoute router fqdn with
  | None =>
      {| Host := Host req;
         URL_Scheme := "http";
         URL_Host := "invalid-internal-host";
         Header := Header_Set (Header req) "X-RProxy-Error" noRoute |}
  | Some route =>
      let targetHost :=
        JoinHostPort (TargetIP route) (formatInt (TargetPort route)) in
      let h := Header_Set (Header req) "X-Forwarded-Host"
                          (Header_Get (Header req) "Host") in
      let h := Header_Set h "X-Forwarded-Proto" "https" in
      {| Host := targetHost;
         URL_Scheme := "http";
         URL_Host := targetHost;
         Header := h |}
  end.


End Handler.

(** A stand-in for [Net], to run the model on host names and IPv4
    literals: a host and a port are what stands before and after the one
    colon, and header keys are taken to be in canonical form. *)
Definition plainNet : Net := {|
  SplitHostPort hostport :=
    match cut ":"%char hostport with
    | Some (host, port) =>
        if contains ":"%char port then None else Some (host, port)
    | None => None
    end;
  CanonicalMIMEHeaderKey key := key
|}.

(** A request for the host of scenario A, on port 443. *)
Definition request : Request :=
  {| Host := "app.example.com:443";
     URL_Scheme := "";
     URL_Host := "";
     Header := {[ "Accept" := ["*/*"] ]} |}.

End handler.

(* ===================================================================== *)
(** * Properties of the route reconciliation                              *)
(* ===================================================================== *)

Module RouterProofs.
Import podman proxy.

(** ** The fan-out *)

Lemma newRoutes_commitRoute old c rt st :
  newRoutes (commitRoute old c rt st) = <[FQDN c := rt]> (newRoutes st).
Proof. unfold commitRoute. by case_match. Qed.

Lemma newRoutes_foldl env old cs st :
  newRoutes (foldl (goroutine env old) st cs)
  = foldl (addCandidate env) (newRoutes st) cs.
Proof.
  revert st. induction cs as [|c cs IH]; intros st; [done|].
  cbn [foldl]. rewrite IH. f_equal.
  unfold goroutine, addCandidate.
  destruct (resolveRoute env c); [apply newRoutes_commitRoute | done].
Qed.

(** Whatever the interleaving, the table the goroutines build is the
    candidate table. *)
Lemma newRoutes_fanOut env old : newRoutes (fanOut env old) = candidate env.
Proof. unfold fanOut. by rewrite newRoutes_foldl. Qed.

(** A tick that saw a new or changed route publishes the candidate. *)
Lemma updateRoutes_changed env r cs :
  ListContainers env = Some cs ->
  routesChanged (fanOut env (routes r)) = true ->
  routes (fst (updateRoutes env r)) = candidate env.
Proof.
  intros Hl Hc. unfold updateRoutes. rewrite Hl. cbn. rewrite Hc. cbn.
  apply newRoutes_fanOut.
Qed.

(** A tick that saw none leaves the router as it is. *)
Lemma updateRoutes_unchanged env r cs :
  ListContainers env = Some cs ->
  routesChanged (fanOut env (routes r)) = false ->
  fst (updateRoutes env r) = r.
Proof.
  intros Hl Hc. unfold updateRoutes. rewrite Hl. cbn. by rewrite Hc.
Qed.

(** The flag stays down exactly when every backend that resolved is in
    the old table with the same route.  A backend that left the listing
    has no goroutine, so nothing raises the flag for it. *)
Lemma routesChanged_foldl_false env old cs st :
  routesChanged (foldl (goroutine env old) st cs) = false <->
  routesChanged st = false
  /\ forall c rt, c ∈ cs -> resolveRoute env c = Some rt ->
                  old !! FQDN c = Some rt.
Proof.
  revert st. induction cs as [|c cs IH]; intros st; cbn [foldl].
  { split; [intros ?; split; [done|] | by intros [? _]].
    intros c rt Hc. by apply elem_of_nil in Hc. }
  rewrite IH. unfold goroutine. split.
  - intros [Hst Hcs].
    destruct (resolveRoute env c) as [rt|] eqn:Hr.
    + unfold commitRoute in Hst.
      destruct (old !! FQDN c) as [o|] eqn:Ho; [|done].
      destruct (bool_decide (o <> rt)) eqn:Hd; [done|].
      apply bool_decide_eq_false in Hd. apply dec_stable in Hd. subst o.
      split; [done|]. intros c' rt' Hin Hr'.
      apply elem_of_cons in Hin as [->|Hin]; [|by eauto].
      by rewrite Hr in Hr'; simplify_eq.
    + split; [done|]. intros c' rt' Hin Hr'.
      apply elem_of_cons in Hin as [->|Hin]; [|by eauto].
      by rewrite Hr in Hr'.
  - intros [Hst Hall]. split.
    + destruct (resolveRoute env c) as [rt|] eqn:Hr; [|done].
      unfold commitRoute. rewrite (Hall c rt); [|by left|done].
      rewrite bool_decide_eq_false_2; [done|]. by intros ?.
    + intros c' rt' Hin. apply Hall. by right.
Qed.

(** A tick in which every backend that resolved has its old route leaves
    the router as it is, whatever else the old table holds: routes of
    backends that are gone stay published. *)
Lemma updateRoutes_only_removals env r cs :
  ListContainers env = Some cs ->
  (forall c rt, c ∈ schedule env -> resolveRoute env c = Some rt ->
                routes r !! FQDN c = Some rt) ->
  fst (updateRoutes env r) = r.
Proof.
  intros Hl Hold. apply (updateRoutes_unchanged env r cs Hl).
  unfold fanOut. apply routesChanged_foldl_false. by split.
Qed.

(** The published table after a tick whose listing succeeded: the
    candidate if some resolved backend is new or changed, the old table
    otherwise. *)
Lemma updateRoutes_published env r cs :
  ListContainers env = Some cs ->
  routes (fst (updateRoutes env r))
  = if routesChanged (fanOut env (routes r))
    then candidate env else routes r.
Proof.
  intros Hl. destruct (routesChanged (fanOut env (routes r))) eqn:Hc.
  - by apply (updateRoutes_changed env r cs).
  - by rewrite (updateRoutes_unchanged env r cs).
Qed.

(** Scenario A of the specification: from an empty table, the tick
    publishes the one backend. *)
Example scenario_A :
  GetRoute (fst (updateRoutes scenarios.envA NewRouter)) "app.example.com"
  = Some {| TargetIP := "10.0.0.5"; TargetPort := 8080 |}.
Proof. vm_compute. reflexivity. Qed.

(** Scenario A is a tick as the runtime can produce it. *)
Lemma envA_coherent : coherent scenarios.envA.
Proof.
  split.
  - intros id i. cbn. unfold scenarios.inspectC1.
    case_decide; [|done]. intros [= <-]. cbn.
    unfold range_of. apply (bool_decide_unpack _). by vm_compute.
  - intros cs [= <-]. done.
Qed.

(** ** The claims *)

(** C1, at the input where the code departs from it.  The listing
    succeeds and no longer contains the backend of old.example.com; the
    one listed backend is unchanged, so [routesChanged] stays false and
    the old table stays published: old.example.com is absent from the
    candidate table and still routed after the tick. *)
Theorem updateRoutes_keeps_removed_backend :
  let r' := fst (updateRoutes scenarios.envA scenarios.twoRoutes) in
  ListContainers scenarios.envA = Some [scenarios.c1]
  /\ candidate scenarios.envA
     = {[ "app.example.com" := {| TargetIP := "10.0.0.5"; TargetPort := 8080 |} ]}
  /\ GetRoute r' "old.example.com"
     = Some {| TargetIP := "10.0.0.6"; TargetPort := 80 |}
  /\ routes r' <> candidate scenarios.envA.
Proof.
  cbn zeta. split; [reflexivity|]. split; [by vm_compute|].
  split; [by vm_compute|].
  intros Heq.
  assert (Hl : routes (fst (updateRoutes scenarios.envA scenarios.twoRoutes))
               !! "old.example.com"
               = candidate scenarios.envA !! "old.example.com")
    by (by rewrite Heq).
  vm_compute in Hl. discriminate.
Qed.

(** C3.  A tick whose container listing fails leaves the published route
    table exactly as it was: the router is unchanged, so every lookup
    answers as before, and no certificate check is triggered. *)
Theorem updateRoutes_listing_failure env r :
  ListContainers env = None ->
  fst (updateRoutes env r) = r
  /\ (forall fqdn, GetRoute (fst (updateRoutes env r)) fqdn = GetRoute r fqdn)
  /\ snd (updateRoutes env r) = [].
Proof.
  intros Hl. unfold updateRoutes. rewrite Hl. by cbn.
Qed.

Lemma updateRoutes_listing_failure_witness :
  fst (updateRoutes scenarios.envDown scenarios.twoRoutes) = scenarios.twoRoutes
  /\ (forall fqdn,
        GetRoute (fst (updateRoutes scenarios.envDown scenarios.twoRoutes)) fqdn
        = GetRoute scenarios.twoRoutes fqdn)
  /\ snd (updateRoutes scenarios.envDown scenarios.twoRoutes) = [].
Proof.
  apply (updateRoutes_listing_failure scenarios.envDown scenarios.twoRoutes).
  reflexivity.
Defined.

End RouterProofs.

(* ===================================================================== *)
(** * Properties of the address selection                                 *)
(* ===================================================================== *)

Module AddressProofs.
Import podman proxy.







End AddressProofs.

(* ===================================================================== *)
(** * Properties of the certificate manager                               *)
(* ===================================================================== *)

Module CertProofs.
Import certs.

Ltac unfold_m :=
  unfold mbind, M_bind, mret, M_ret, fail, prim, emit, try in *.

(** ** Counting actions *)

Lemma occurrences_nil e : occurrences e [] = 0%nat.
Proof. done. Qed.

Lemma occurrences_app e l1 l2 :
  occurrences e (l1 ++ l2) = (occurrences e l1 + occurrences e l2)%nat.
Proof. unfold occurrences. by rewrite filter_app, length_app. Qed.

Lemma occurrences_cons_eq e l : occurrences e (e :: l) = S (occurrences e l).
Proof. unfold occurrences. by rewrite filter_cons_True. Qed.

Lemma occurrences_cons_ne e e' l :
  e' <> e -> occurrences e (e' :: l) = occurrences e l.
Proof. intros. unfold occurrences. by rewrite filter_cons_False. Qed.

Lemma occurrences_absent e l :
  Forall (fun e' => e' <> e) l -> occurrences e l = 0%nat.
Proof.
  induction 1 as [|e' l Hne _ IH]; [done|].
  by rewrite occurrences_cons_ne.
Qed.

Lemma not_obtain_absent f evs :
  Forall not_obtain evs -> occurrences (EvObtain f) evs = 0%nat.
Proof.
  intros Hall. apply occurrences_absent.
  eapply Forall_impl; [exact Hall|]. intros e He. apply He.
Qed.

Lemma quiet_absent_obtain f evs :
  Forall quiet evs -> occurrences (EvObtain f) evs = 0%nat.
Proof.
  intros Hall. apply occurrences_absent.
  eapply Forall_impl; [exact Hall|]. intros e [He _]. apply He.
Qed.

Lemma quiet_absent_order f evs :
  Forall quiet evs -> occurrences (EvAcmeOrder f) evs = 0%nat.
Proof.
  intros Hall. apply occurrences_absent.
  eapply Forall_impl; [exact Hall|]. intros e [_ He]. apply He.
Qed.

Ltac count :=
  repeat first
    [ rewrite occurrences_app
    | rewrite occurrences_cons_eq
    | rewrite occurrences_cons_ne by discriminate
    | rewrite occurrences_nil
    | rewrite not_obtain_absent by assumption ].

Lemma extends_app P base tr :
  extends P base tr -> exists evs, tr = (evs ++ base)%list /\ Forall P evs.
Proof.
  induction 1 as [|e tr He _ (evs & -> & Hall)].
  - by exists [].
  - exists (e :: evs). split; [done|]. by constructor.
Qed.

Lemma extends_trans P base mid tr :
  extends P base mid -> extends P mid tr -> extends P base tr.
Proof. intros Hbm. induction 1; [done|]. by constructor. Qed.

(** ** The renewal test *)

(** For a [renewBefore] that is a [time.Duration] above its least value,
    the test of the code, on the saturated difference, is the test
    [now > notAfter - renewBefore] on instants. *)
Lemma Until_lt_iff expiry now rb :
  Go.minDuration < rb <= Go.maxDuration ->
  (Go.Until expiry now <? rb) = true <-> now > expiry - rb.
Proof.
  unfold Go.Until, Go.Sub, Go.minDuration, Go.maxDuration,
    Go.minInt64, Go.maxInt64.
  intros Hrb. rewrite Z.ltb_lt.
  repeat case_match; rewrite ?Z.ltb_lt, ?Z.ltb_ge in *; lia.
Qed.

Section WithCrypto.
Context `{Crypto}.

(** ** [loadCertFromFile] *)

(** When the persisted pair loads: the expiry, the pair cached, the
    volume as it was. *)
Lemma loadCertFromFile_ok fqdn w tc expiry :
  persisted (disk w) fqdn = Some (tc, expiry) ->
  loadCertFromFile fqdn w
  = (Ok expiry,
     {| disk := disk w;
        certs := <[fqdn := tc]> (certs w);
        trace := EvCachePut fqdn :: EvReadFile (keyFileOf fqdn)
                 :: EvReadFile (certFileOf fqdn) :: EvLoad fqdn
                 :: trace w |}).
Proof.
  unfold persisted, loadCertFromFile, os_ReadFile, cachePut. unfold_m.
  cbn.
  repeat case_match; intros; simplify_eq; cbn in *; simplify_eq;
    congruence.
Qed.

(** When it does not: an error, one or two reads, nothing changed. *)
Lemma loadCertFromFile_err fqdn w :
  persisted (disk w) fqdn = None ->
  exists e w',
    loadCertFromFile fqdn w = (Err e, w')
    /\ disk w' = disk w /\ certs w' = certs w
    /\ (trace w' = EvReadFile (certFileOf fqdn) :: EvLoad fqdn :: trace w
        \/ trace w' = EvReadFile (keyFileOf fqdn)
                      :: EvReadFile (certFileOf fqdn)
                      :: EvLoad fqdn :: trace w).
Proof.
  unfold persisted, loadCertFromFile, os_ReadFile, cachePut. unfold_m.
  cbn.
  repeat case_match; intros; simplify_eq; cbn in *; simplify_eq;
    try congruence;
    eexists _, _; (split; [reflexivity|]); cbn; auto.
Qed.

Lemma persisted_cert_file d fqdn tc expiry :
  persisted d fqdn = Some (tc, expiry) ->
  exists certData, d !! certFileOf fqdn = Some (Regular certData).
Proof. unfold persisted. repeat case_match; naive_solver. Qed.

Local Arguments loadCertFromFile : simpl never.

Lemma loadCertFromFile_quiet fqdn w :
  extends quiet (trace w) (trace (snd (loadCertFromFile fqdn w))).
Proof.
  destruct (persisted (disk w) fqdn) as [[tc expiry]|] eqn:Hp.
  - rewrite (loadCertFromFile_ok fqdn w tc expiry Hp). cbn.
    by repeat constructor.
  - destruct (loadCertFromFile_err fqdn w Hp)
      as (e & w' & Hl & _ & _ & [Ht | Ht]); rewrite Hl; cbn; rewrite Ht;
      by repeat constructor.
Qed.

(** ** [GetCertificateForSNI] *)

Lemma GetCertificateForSNI_hit hello w cert :
  ServerName hello <> "" ->
  certs w !! ServerName hello = Some cert ->
  GetCertificateForSNI hello w
  = (Ok cert, {| disk := disk w; certs := certs w;
                 trace := EvCacheGet (ServerName hello) :: trace w |}).
Proof.
  intros Hne Hc. unfold GetCertificateForSNI.
  rewrite decide_False by done. unfold cacheGet. unfold_m. cbn.
  by rewrite Hc.
Qed.

Lemma GetCertificateForSNI_miss_loaded hello w tc expiry :
  ServerName hello <> "" ->
  certs w !! ServerName hello = None ->
  persisted (disk w) (ServerName hello) = Some (tc, expiry) ->
  GetCertificateForSNI hello w
  = (Ok tc, {| disk := disk w;
               certs := <[ServerName hello := tc]> (certs w);
               trace := EvCacheGet (ServerName hello)
                        :: EvCachePut (ServerName hello)
                        :: EvReadFile (keyFileOf (ServerName hello))
                        :: EvReadFile (certFileOf (ServerName hello))
                        :: EvLoad (ServerName hello)
                        :: EvCacheGet (ServerName hello) :: trace w |}).
Proof.
  intros Hne Hc Hp. unfold GetCertificateForSNI.
  rewrite decide_False by done. unfold cacheGet. unfold_m. cbn.
  rewrite Hc.
  erewrite loadCertFromFile_ok by (cbn; exact Hp). cbn.
  by rewrite lookup_insert_eq.
Qed.

Lemma GetCertificateForSNI_miss_failed hello w :
  ServerName hello <> "" ->
  certs w !! ServerName hello = None ->
  persisted (disk w) (ServerName hello) = None ->
  exists w',
    GetCertificateForSNI hello w
    = (Err (ErrNotAvailable (ServerName hello)), w')
    /\ disk w' = disk w /\ certs w' = certs w
    /\ (trace w' = EvReadFile (certFileOf (ServerName hello))
                   :: EvLoad (ServerName hello)
                   :: EvCacheGet (ServerName hello) :: trace w
        \/ trace w' = EvReadFile (keyFileOf (ServerName hello))
                      :: EvReadFile (certFileOf (ServerName hello))
                      :: EvLoad (ServerName hello)
                      :: EvCacheGet (ServerName hello) :: trace w).
Proof.
  intros Hne Hc Hp. unfold GetCertificateForSNI.
  rewrite decide_False by done. unfold cacheGet. unfold_m. cbn.
  rewrite Hc.
  match goal with
  | |- context [loadCertFromFile ?f ?w0] =>
      destruct (loadCertFromFile_err f w0 Hp)
        as (e & w' & Hl & Hd & Hcs & Ht)
  end.
  rewrite Hl. cbn in *.
  eexists. split; [reflexivity|]. split; [done|]. split; [done|]. done.
Qed.

(** C9.  A handshake without a server name is refused with the
    missing-SNI error and no certificate; the world is returned as it
    was, trace included, so neither the cache nor the certificate
    volume was consulted. *)
Theorem GetCertificateForSNI_empty_name w :
  GetCertificateForSNI {| ServerName := "" |} w = (Err ErrMissingSNI, w)
  /\ trace (snd (GetCertificateForSNI {| ServerName := "" |} w)) = trace w.
Proof. split; reflexivity. Qed.

(** C7.  The handshake-time lookup never issues: whatever the name, the
    actions it adds hold no entry of [obtainOrRenewCert] and no ACME
    order, and the volume is left as it was.  For a name that is not
    empty, a cached record is returned without a load; without one,
    exactly one load is attempted, and the lookup returns the persisted
    record, now cached, if it loads, and the not-available error, with
    the cache unchanged, if it does not. *)
Theorem GetCertificateForSNI_cache_then_volume hello w :
  let fqdn := ServerName hello in
  let r := fst (GetCertificateForSNI hello w) in
  let w' := snd (GetCertificateForSNI hello w) in
  exists evs,
    trace w' = (evs ++ trace w)%list
    /\ Forall (fun e => issues e = false) evs
    /\ disk w' = disk w
    /\ (fqdn <> "" ->
        match certs w !! fqdn with
        | Some cert =>
            r = Ok cert /\ certs w' = certs w
            /\ occurrences (EvLoad fqdn) evs = 0%nat
        | None =>
            occurrences (EvLoad fqdn) evs = 1%nat
            /\ match persisted (disk w) fqdn with
               | Some (tc, _) =>
                   r = Ok tc /\ certs w' = <[fqdn := tc]> (certs w)
               | None =>
                   r = Err (ErrNotAvailable fqdn) /\ certs w' = certs w
               end
        end).
Proof.
  cbn zeta. destruct (decide (ServerName hello = "")) as [He|Hne].
  { exists []. unfold GetCertificateForSNI. rewrite decide_True by done.
    cbn. split; [done|]. split; [done|]. split; [done|]. done. }
  destruct (certs w !! ServerName hello) as [cert|] eqn:Hc.
  { rewrite (GetCertificateForSNI_hit hello w cert Hne Hc). cbn.
    exists [EvCacheGet (ServerName hello)].
    split; [done|]. split; [by repeat constructor|]. split; [done|].
    intros _. split; [done|]. split; [done|]. by count. }
  destruct (persisted (disk w) (ServerName hello)) as [[tc expiry]|] eqn:Hp.
  { rewrite (GetCertificateForSNI_miss_loaded hello w tc expiry Hne Hc Hp).
    cbn. eexists [_; _; _; _; _; _].
    split; [reflexivity|]. split; [by repeat constructor|]. split; [done|].
    intros _. split; [by count|]. done. }
  destruct (GetCertificateForSNI_miss_failed hello w Hne Hc Hp)
    as (w' & Hg & Hd & Hcs & Ht).
  rewrite Hg. cbn.
  destruct Ht as [Ht | Ht]; [eexists [_; _; _] | eexists [_; _; _; _]];
    (split; [rewrite Ht; reflexivity|]);
    (split; [by repeat constructor|]); (split; [done|]);
    intros _; (split; [by count|]); done.
Qed.

(** ** [obtainOrRenewCert] *)

Ltac split_load :=
  match goal with
  | |- context [loadCertFromFile ?f ?w0] =>
      let tc := fresh "tc" in let expiry := fresh "expiry" in
      let Hp := fresh "Hp" in
      let e := fresh "e" in let w' := fresh "w'" in
      let Hl := fresh "Hl" in let Hd := fresh "Hd" in
      let Hc := fresh "Hc" in let Ht := fresh "Ht" in
      destruct (persisted (disk w0) f) as [[tc expiry]|] eqn:Hp;
      [ rewrite (loadCertFromFile_ok f w0 tc expiry Hp)
      | destruct (loadCertFromFile_err f w0 Hp)
          as (e & w' & Hl & Hd & Hc & Ht); rewrite Hl;
        destruct w' as [d' c' t']; cbn in Hd, Hc, Ht; subst d' c';
        destruct Ht as [-> | ->] ]
  end.

Ltac unfold_obtain :=
  unfold obtainOrRenewCert, Certificate_Obtain, storeObtained, os_WriteFile;
  unfold_m; cbn.

(** The actions of [obtainOrRenewCert]: its entry, then none that is an
    entry of [obtainOrRenewCert]. *)
Lemma obtainOrRenewCert_trace m env fqdn w :
  extends not_obtain (EvObtain fqdn :: trace w)
          (trace (snd (obtainOrRenewCert m env fqdn w))).
Proof.
  unfold_obtain.
  destruct (legoClient m); cbn; [|by constructor].
  destruct (Obtain env); cbn; [|by repeat constructor].
  destruct (certWrite env) as [|[?|]]; cbn; [| by repeat constructor..].
  destruct (keyWrite env) as [|[?|]]; cbn; [| by repeat constructor..].
  split_load; cbn; by repeat constructor.
Qed.

(** So the new actions hold exactly one entry of it. *)
Lemma obtainOrRenewCert_once m env fqdn w :
  exists evs,
    trace (snd (obtainOrRenewCert m env fqdn w)) = (evs ++ trace w)%list
    /\ occurrences (EvObtain fqdn) evs = 1%nat.
Proof.
  destruct (extends_app _ _ _ (obtainOrRenewCert_trace m env fqdn w))
    as (evs & Ht & Hall).
  exists (evs ++ [EvObtain fqdn])%list. split.
  - by rewrite Ht, <- app_assoc.
  - by count.
Qed.

(** C4, amended.  An obtain that fails never touches the cached record:
    the cache after it is the cache before it.  When it fails at the
    ACME order, or for want of a client, the certificate volume is
    untouched as well.  The cache changes only in a call that returns
    no error, after both files were written, and then to the record
    that loads and parses from the files as written.  (The files are
    written before anything is parsed, so a failure while writing them
    is not covered by the second statement.) *)
Theorem obtainOrRenewCert_failure_keeps_cache m env fqdn w :
  let r := fst (obtainOrRenewCert m env fqdn w) in
  let w' := snd (obtainOrRenewCert m env fqdn w) in
  (forall e, r = Err e -> certs w' = certs w)
  /\ (legoClient m = None \/ Obtain env = None ->
      (exists e, r = Err e) /\ disk w' = disk w)
  /\ (certs w' = certs w
      \/ exists certRes tc expiry,
           r = Ok tt
           /\ Obtain env = Some certRes
           /\ disk w' = <[keyFileOf fqdn := Regular (res_PrivateKey certRes)]>
                          (<[certFileOf fqdn := Regular (res_Certificate certRes)]>
                             (disk w))
           /\ persisted (disk w') fqdn = Some (tc, expiry)
           /\ certs w' = <[fqdn := tc]> (certs w)).
Proof.
  unfold_obtain.
  destruct (legoClient m) eqn:Hm; cbn.
  2:{ split; [done|]. split; [by eauto|]. by left. }
  destruct (Obtain env) as [certRes|] eqn:Ho; cbn.
  2:{ split; [done|]. split; [by eauto|]. by left. }
  destruct (certWrite env) as [|[?|]]; cbn.
  2,3: (split; [done|]; split; [by intros [|]|]; by left).
  destruct (keyWrite env) as [|[?|]]; cbn.
  2,3: (split; [done|]; split; [by intros [|]|]; by left).
  split_load; cbn in *.
  - split; [done|]. split; [by intros [|]|]. right.
    exists certRes, tc, expiry. done.
  - split; [done|]. split; [by intros [|]|]. by left.
  - split; [done|]. split; [by intros [|]|]. by left.
Qed.

(** ** [CheckAndManageCert] *)

Local Arguments obtainOrRenewCert : simpl never.

(** C6.  With a persisted certificate that loads, the check enters
    [obtainOrRenewCert] once if [now > notAfter - renewBefore] and not
    at all otherwise; with no certificate file it always enters it
    once.  [renewBefore] is a [time.Duration] above the least one. *)
Theorem CheckAndManageCert_obtains_when_due m env fqdn w :
  Go.minDuration < renewBefore m <= Go.maxDuration ->
  exists evs,
    trace (CheckAndManageCert m env fqdn w) = (evs ++ trace w)%list
    /\ (forall tc notAfter,
          persisted (disk w) fqdn = Some (tc, notAfter) ->
          (occurrences (EvObtain fqdn) evs = 1%nat
           <-> now env > notAfter - renewBefore m)
          /\ (occurrences (EvObtain fqdn) evs = 0%nat
              <-> ~ now env > notAfter - renewBefore m))
    /\ (disk w !! certFileOf fqdn = None ->
        occurrences (EvObtain fqdn) evs = 1%nat).
Proof.
  intros Hrb. unfold CheckAndManageCert, os_Stat. unfold_m. cbn.
  destruct (disk w !! certFileOf fqdn) as [n|] eqn:Hcert; cbn.
  2:{ (* no certificate file *)
    unfold manage.
    match goal with
    | |- context [obtainOrRenewCert m env fqdn ?w0] =>
        destruct (obtainOrRenewCert_once m env fqdn w0) as (evs & Ht & Hn)
    end.
    exists (evs ++ [EvStat (certFileOf fqdn)])%list.
    split; [by rewrite Ht, <- app_assoc|].
    split; [|intros _; by count; rewrite Hn].
    intros tc notAfter Hp.
    apply persisted_cert_file in Hp as [? Hp]. congruence. }
  destruct (persisted (disk w) fqdn) as [[tc expiry]|] eqn:Hp.
  - (* the persisted pair loads *)
    destruct (persisted_cert_file _ _ _ _ Hp) as [certData Hc].
    assert (n = Regular certData) as -> by congruence.
    erewrite loadCertFromFile_ok by (cbn; exact Hp). cbn.
    unfold manage.
    destruct (Go.Until expiry (now env) <? renewBefore m) eqn:Hdue.
    + match goal with
      | |- context [obtainOrRenewCert m env fqdn ?w0] =>
          destruct (obtainOrRenewCert_once m env fqdn w0) as (evs & Ht & Hn)
      end.
      cbn in Ht.
      eexists (evs ++ [_; _; _; _; _])%list.
      split; [rewrite Ht, <- app_assoc; reflexivity|].
      split; [|congruence].
      intros tc' notAfter [= <- <-].
      apply Until_lt_iff in Hdue; [|done].
      count. rewrite Hn. cbn. split; split; try done; lia.
    + eexists [_; _; _; _; _]. split; [reflexivity|].
      split; [|congruence].
      intros tc' notAfter [= <- <-].
      assert (~ now env > expiry - renewBefore m).
      { rewrite <- Until_lt_iff by done. by rewrite Hdue. }
      count. cbn. split; split; try done; lia.
  - (* a file is there and does not load *)
    destruct n; cbn.
    3:{ eexists [_]. split; [reflexivity|]. split; congruence. }
    all: match goal with
         | |- context [loadCertFromFile ?f ?w0] =>
             destruct (loadCertFromFile_err f w0 Hp)
               as (e & w' & Hl & Hd & Hcs & Ht)
         end; rewrite Hl; unfold manage; cbn in Ht;
         destruct Ht as [Ht | Ht];
         [ eexists [_; _; _] | eexists [_; _; _; _] ];
         (split; [rewrite Ht; reflexivity|]); split; congruence.
Qed.



End WithCrypto.
(** ** The claims on concrete volumes *)

Import scenarios.

(** C4 fails on the code.  The volume holds a valid pair for the host.
    An obtain gets new material from the ACME service and writes the
    certificate file; the write of the key file then fails at the open.
    The call returns the save error, yet the certificate file now holds
    the new certificate next to the old key: the persisted pair, valid
    before, no longer loads. *)
Lemma failed_key_write_replaces_certificate :
  let w' := snd (@obtainOrRenewCert toyCrypto manager keyWriteFails host stored) in
  fst (@obtainOrRenewCert toyCrypto manager keyWriteFails host stored)
  = Err (ErrSavePrivateKey (keyFileOf host))
  /\ disk stored !! certFileOf host = Some (Regular in10days)
  /\ disk w' !! certFileOf host = Some (Regular in90days)
  /\ @persisted toyCrypto (disk stored) host
     = Some ({| Certificate := [in10days]; PrivateKey := "key:" ++ in10days |},
             10 * day)
  /\ @persisted toyCrypto (disk w') host = None
  /\ ~ @failed_obtain_keeps_record toyCrypto.
Proof.
  cbn zeta. split; [by vm_compute|]. split; [by vm_compute|].
  split; [by vm_compute|]. split; [by vm_compute|]. split; [by vm_compute|].
  intros Hkeep.
  destruct (Hkeep manager keyWriteFails host stored
              (ErrSavePrivateKey (keyFileOf host))
              (snd (@obtainOrRenewCert toyCrypto manager keyWriteFails
                      host stored)))
    as (_ & Hcert & _); [by vm_compute|].
  vm_compute in Hcert. discriminate.
Qed.

(** The same failed obtain leaves the cache as it was. *)
Lemma obtainOrRenewCert_failure_keeps_cache_witness :
  certs (snd (@obtainOrRenewCert toyCrypto manager keyWriteFails host stored))
  = certs stored.
Proof.
  apply (proj1 (@obtainOrRenewCert_failure_keeps_cache toyCrypto manager
                  keyWriteFails host stored)
               (ErrSavePrivateKey (keyFileOf host))).
  vm_compute. reflexivity.
Defined.

(** The example of the specification: the certificate expires in ten
    days, [renewBefore] is thirty days, and the check enters
    [obtainOrRenewCert] once. *)
Lemma CheckAndManageCert_obtains_when_due_witness :
  exists evs,
    trace (@CheckAndManageCert toyCrypto manager allGoesWell host stored)
    = (evs ++ trace stored)%list
    /\ (forall tc notAfter,
          @persisted toyCrypto (disk stored) host = Some (tc, notAfter) ->
          (occurrences (EvObtain host) evs = 1%nat
           <-> now allGoesWell > notAfter - renewBefore manager)
          /\ (occurrences (EvObtain host) evs = 0%nat
              <-> ~ now allGoesWell > notAfter - renewBefore manager))
    /\ (disk stored !! certFileOf host = None ->
        occurrences (EvObtain host) evs = 1%nat).
Proof.
  apply (@CheckAndManageCert_obtains_when_due toyCrypto manager allGoesWell
           host stored).
  vm_compute. split; [reflexivity|discriminate].
Defined.

Example ten_days_left_obtains_once :
  occurrences (EvObtain host)
    (trace (@CheckAndManageCert toyCrypto manager allGoesWell host stored))
  = 1%nat.
Proof. vm_compute. reflexivity. Qed.

(** A first handshake for the host finds nothing cached, loads the pair
    from the volume and returns it. *)
Lemma GetCertificateForSNI_cache_then_volume_witness :
  fst (@GetCertificateForSNI toyCrypto {| ServerName := host |} stored)
  = Ok {| Certificate := [in10days]; PrivateKey := "key:" ++ in10days |}.
Proof.
  destruct (@GetCertificateForSNI_cache_then_volume toyCrypto
              {| ServerName := host |} stored)
    as (evs & _ & _ & _ & Hlookup).
  specialize (Hlookup ltac:(discriminate)).
  vm_compute in Hlookup. destruct Hlookup as (_ & Hr & _).
  vm_compute. exact Hr.
Defined.


End CertProofs.

(* ===================================================================== *)
(** * Properties of concurrent certificate checks                         *)
(* ===================================================================== *)

Module ConcurrencyProofs.
Import certs CertProofs.

(** ** Pools *)







Section WithCrypto.
Context `{Crypto}.
Local Arguments loadCertFromFile : simpl never.

(** ** One step of one call *)

Lemma receiveOrder_quiet env fqdn w :
  extends quiet (trace w) (trace (snd (receiveOrder env fqdn w))).
Proof.
  unfold receiveOrder, storeObtained, os_WriteFile. unfold_m.
  destruct (Obtain env); cbn; [|by constructor].
  destruct (certWrite env) as [|[?|]]; cbn; [| by repeat constructor..].
  destruct (keyWrite env) as [|[?|]]; cbn; [| by repeat constructor..].
  match goal with
  | |- context [loadCertFromFile ?f ?w0] =>
      pose proof (loadCertFromFile_quiet f w0) as Hq;
      destruct (loadCertFromFile f w0) as [res wl]
  end.
  cbn in *. eapply extends_trans; [|exact Hq]. by repeat constructor.
Qed.

(** A step keeps the name of the call; what it adds to the trace holds
    at most the one entry of [obtainOrRenewCert] the call still had
    pending, and no more orders than entries. *)
Lemma step_budget m c w :
  c_fqdn (fst (step m c w)) = c_fqdn c
  /\ exists evs,
       trace (snd (step m c w)) = (evs ++ trace w)%list
       /\ (occurrences (EvObtain (c_fqdn c)) evs
           + pending (fst (step m c w)) <= pending c)%nat
       /\ (occurrences (EvAcmeOrder (c_fqdn c)) evs
           <= occurrences (EvObtain (c_fqdn c)) evs)%nat.
Proof.
  unfold step. destruct c as [fqdn env p]. cbn [c_fqdn c_env c_pc].
  destruct p.
  - (* AtStat *)
    unfold os_Stat. unfold_m. cbn.
    destruct (disk w !! certFileOf fqdn) as [[| |]|]; cbn;
      (split; [done|]); exists [EvStat (certFileOf fqdn)];
      (split; [done|]); (count; cbn; lia).
  - (* AtLoad *)
    pose proof (loadCertFromFile_quiet fqdn w) as Hq.
    destruct (loadCertFromFile fqdn w) as [[expiry|e] w1]; cbn in *;
      apply extends_app in Hq as (evs & Hq & Hall).
    + destruct (_ <? _); cbn; (split; [done|]); exists evs;
        (split; [done|]);
        rewrite quiet_absent_obtain, quiet_absent_order by done; cbn; lia.
    + split; [done|]. exists evs. split; [done|].
      rewrite quiet_absent_obtain, quiet_absent_order by done; cbn; lia.
  - (* AtObtain *)
    unfold sendOrder. unfold_m. cbn.
    destruct (legoClient m); cbn; (split; [done|]).
    + exists [EvAcmeOrder fqdn; EvObtain fqdn]. split; [done|].
      count; cbn; lia.
    + exists [EvObtain fqdn]. split; [done|]. count; cbn; lia.
  - (* InFlight *)
    cbn. split; [done|].
    destruct (extends_app _ _ _ (receiveOrder_quiet env fqdn w))
      as (evs & Hq & Hall).
    exists evs. split; [done|].
    rewrite quiet_absent_obtain, quiet_absent_order by done; cbn; lia.
  - (* Returned *)
    cbn. split; [done|]. exists []. split; [done|]. cbn. lia.
Qed.

(** ** Interleavings *)



Lemma run_cons m i sched cfg :
  run m (i :: sched) cfg = run m sched (stepAt m i (fst cfg) (snd cfg)).
Proof. done. Qed.




(** ** A call on its own is [CheckAndManageCert] *)

Local Arguments storeObtained : simpl never.

Lemma obtain_in_two_steps m env fqdn w :
  snd (obtainOrRenewCert m env fqdn w)
  = match sendOrder m fqdn w with
    | (Err _, w1) => w1
    | (Ok _, w1) => snd (receiveOrder env fqdn w1)
    end.
Proof.
  unfold obtainOrRenewCert, sendOrder, receiveOrder, Certificate_Obtain.
  unfold_m. cbn.
  destruct (legoClient m); cbn; [|done].
  destruct (Obtain env); cbn; [|done].
  match goal with
  | |- context [storeObtained ?e ?f ?r ?w0] =>
      by destruct (storeObtained e f r w0) as [[] ?]
  end.
Qed.

Lemma run_single m c w sched :
  run m (0%nat :: sched) ([c], w)
  = run m sched ([fst (step m c w)], snd (step m c w)).
Proof.
  unfold run. cbn [foldl fst snd stepAt]. by destruct (step m c w).
Qed.

Lemma run_returned m fqdn env w sched :
  snd (run m sched
         ([ {| c_fqdn := fqdn; c_env := env; c_pc := Returned |} ], w))
  = w.
Proof.
  induction sched as [|i sched IH]; [done|].
  destruct i; [by rewrite run_single|].
  unfold run in *. cbn [foldl fst snd stepAt]. exact IH.
Qed.

Ltac next_step :=
  rewrite run_single; unfold step at 1 2; cbn [c_pc c_fqdn c_env].

(** The four steps of a call that runs undisturbed change the world as
    [CheckAndManageCert] does. *)
Lemma call_alone m env fqdn w :
  snd (run m [0; 0; 0; 0]%nat (spawn fqdn [env], w))
  = CheckAndManageCert m env fqdn w.
Proof.
  unfold spawn, CheckAndManageCert, manage. cbn [map].
  next_step.
  destruct (os_Stat (certFileOf fqdn) w) as [[[]|e] w1]; cbn [fst snd].
  - next_step.
    destruct (loadCertFromFile fqdn w1) as [[expiry|e] w2]; cbn [fst snd].
    + destruct (Go.Until expiry (now env) <? renewBefore m); cbn [fst snd].
      * rewrite obtain_in_two_steps. next_step.
        destruct (sendOrder m fqdn w2) as [[[]|e] w3]; cbn [fst snd].
        -- next_step. cbn [fst snd]. apply run_returned.
        -- apply run_returned.
      * apply run_returned.
    + apply run_returned.
  - destruct (IsNotExist e); cbn [fst snd].
    + rewrite obtain_in_two_steps. next_step.
      destruct (sendOrder m fqdn w1) as [[[]|e'] w3]; cbn [fst snd].
      * next_step. cbn [fst snd]. apply run_returned.
      * apply run_returned.
    + apply run_returned.
Qed.

(** ** Calls that move together *)






End WithCrypto.

(** ** The claim on a concrete volume *)

Import scenarios.



End ConcurrencyProofs.

(* ===================================================================== *)
(** * Properties of the DNS-01 record name                                *)
(* ===================================================================== *)

Module StringFacts.

Lemma append_nil (t : string) : "" ++ t = t.
Proof. done. Qed.

Lemma append_cons (a : ascii) (s t : string) :
  String a s ++ t = String a (s ++ t).
Proof. done. Qed.

Lemma length_append (s t : string) :
  String.length (s ++ t) = (String.length s + String.length t)%nat.
Proof.
  induction s as [|a s IH]; [done|].
  rewrite append_cons. cbn. by f_equal.
Qed.

Lemma substring_all (s : string) : substring 0 (String.length s) s = s.
Proof. induction s as [|a s IH]; cbn; [done|]. by f_equal. Qed.

Lemma substring_head (s t : string) :
  substring 0 (String.length s) (s ++ t) = s.
Proof.
  induction s as [|a s IH]; [rewrite append_nil; by destruct t|].
  rewrite append_cons. cbn. by f_equal.
Qed.

Lemma substring_tail (s t : string) :
  substring (String.length s) (String.length t) (s ++ t) = t.
Proof.
  induction s as [|a s IH]; [apply substring_all|].
  rewrite append_cons. by cbn.
Qed.

Lemma substring_split (n : nat) (s : string) :
  (n <= String.length s)%nat ->
  substring 0 n s ++ substring n (String.length s - n) s = s.
Proof.
  revert n. induction s as [|a s IH]; intros n Hn; cbn in *.
  { by destruct n. }
  destruct n as [|n]; cbn.
  - rewrite append_nil. f_equal. apply substring_all.
  - rewrite append_cons. f_equal. apply IH. lia.
Qed.

Lemma length_substring_head (n : nat) (s : string) :
  (n <= String.length s)%nat -> String.length (substring 0 n s) = n.
Proof.
  revert n. induction s as [|a s IH]; intros n Hn; cbn in *.
  { destruct n; [done|lia]. }
  destruct n as [|n]; cbn; [done|]. f_equal. apply IH. lia.
Qed.

Lemma append_assoc (s t u : string) : (s ++ t) ++ u = s ++ t ++ u.
Proof.
  induction s as [|a s IH]; [done|]. rewrite !append_cons. by f_equal.
Qed.

(** A string with a given suffix determines what stands before it. *)
Lemma append_inv_tail (s t u : string) : s ++ u = t ++ u -> s = t.
Proof.
  intros Heq.
  assert (Hlen : String.length s = String.length t).
  { apply (f_equal String.length) in Heq. rewrite !length_append in Heq. lia. }
  rewrite <- (substring_head s u), <- (substring_head t u).
  by rewrite Heq, Hlen.
Qed.

(** [strings.HasSuffix] holds exactly of the strings that end in the
    suffix. *)
Lemma HasSuffix_spec (s suffix : string) :
  Go.HasSuffix s suffix = true <-> exists r, s = r ++ suffix.
Proof.
  unfold Go.HasSuffix. rewrite andb_true_iff, Nat.leb_le, String.eqb_eq.
  split.
  - intros [Hle Hsub].
    exists (substring 0 (String.length s - String.length suffix) s).
    pose proof (substring_split (String.length s - String.length suffix) s
                  ltac:(lia)) as Hsplit.
    replace (String.length s - (String.length s - String.length suffix))%nat
      with (String.length suffix) in Hsplit by lia.
    rewrite Hsub in Hsplit. by symmetry.
  - intros [r ->]. rewrite length_append. split; [lia|].
    replace (String.length r + String.length suffix - String.length suffix)%nat
      with (String.length r) by lia.
    apply substring_tail.
Qed.

Lemma TrimSuffix_app (r suffix : string) : Go.TrimSuffix (r ++ suffix) suffix = r.
Proof.
  unfold Go.TrimSuffix.
  rewrite (proj2 (HasSuffix_spec (r ++ suffix) suffix)) by eauto.
  rewrite length_append.
  replace (String.length r + String.length suffix - String.length suffix)%nat
    with (String.length r) by lia.
  apply substring_head.
Qed.

Lemma TrimSuffix_other (s suffix : string) :
  ~ (exists r, s = r ++ suffix) -> Go.TrimSuffix s suffix = s.
Proof.
  intros Hno. unfold Go.TrimSuffix.
  destruct (Go.HasSuffix s suffix) eqn:Hs; [|done].
  by apply HasSuffix_spec in Hs.
Qed.

Lemma append_nonempty_ne (r suffix : string) :
  suffix <> "" -> r <> r ++ suffix.
Proof.
  intros Hne Heq. apply (f_equal String.length) in Heq.
  rewrite length_append in Heq. destruct suffix; [done|]. cbn in Heq. lia.
Qed.

End StringFacts.

Module GandiProofs.
Import gandi StringFacts.

Lemma recordNameOf_under_zone p r :
  recordNameOf p (r ++ "." ++ baseZone p ++ ".") = inr r.
Proof.
  unfold recordNameOf. rewrite TrimSuffix_app.
  rewrite decide_False; [done|]. by apply append_nonempty_ne.
Qed.

Lemma recordNameOf_outside_zone p fqdn :
  ~ (exists r, fqdn = r ++ "." ++ baseZone p ++ ".") ->
  recordNameOf p fqdn = inl (ErrDerive fqdn (baseZone p)).
Proof.
  intros Hno. unfold recordNameOf. rewrite TrimSuffix_other by done.
  by rewrite decide_True.
Qed.

(** A name in absolute form ends in [.Z.] exactly when the name without
    the final dot ends in [.Z]. *)
Lemma absolute_suffix (F Z r : string) :
  F ++ "." = r ++ "." ++ Z ++ "." <-> F = r ++ "." ++ Z.
Proof.
  split.
  - intros Heq. apply (append_inv_tail _ _ ".").
    by rewrite Heq, !append_assoc.
  - intros ->. by rewrite !append_assoc.
Qed.

(** C8.  Let the challenge name handed to the provider be [F] in absolute
    form, that is [F] followed by a dot, as lego writes it.  When [F]
    ends with [.Z], for the base zone [Z] of the provider, the derived
    record name is [F] without that suffix, and every request [Present]
    and [CleanUp] send addresses that record of the zone.  When [F] does not end with
    [.Z], both return the derivation error and send no request. *)
Theorem record_name_is_fqdn_without_zone env p domain token keyAuth F value :
  GetRecord env domain keyAuth = (F ++ ".", value) ->
  (forall r, F = r ++ "." ++ baseZone p ->
     recordNameOf p (F ++ ".") = inr r
     /\ Forall (fun req => URL req
                           = gandiAPI ++ "/v5/livedns/domains/" ++ baseZone p
                                      ++ "/records/" ++ r)
               (snd (Present env p domain token keyAuth))
     /\ Forall (fun req => URL req
                           = gandiAPI ++ "/v5/livedns/domains/" ++ baseZone p
                                      ++ "/records/" ++ r ++ "/TXT")
               (snd (CleanUp env p domain token keyAuth)))
  /\ (~ (exists r, F = r ++ "." ++ baseZone p) ->
      recordNameOf p (F ++ ".") = inl (ErrDerive (F ++ ".") (baseZone p))
      /\ Present env p domain token keyAuth
         = (Some (ErrDerive (F ++ ".") (baseZone p)), [])
      /\ CleanUp env p domain token keyAuth
         = (Some (ErrDerive (F ++ ".") (baseZone p)), [])).
Proof.
  intros Hrec. split.
  - intros r HF.
    assert (Hname : recordNameOf p (F ++ ".") = inr r).
    { apply absolute_suffix in HF. rewrite HF. apply recordNameOf_under_zone. }
    split; [done|].
    unfold Present, CleanUp. rewrite Hrec, Hname.
    split; repeat case_match; by repeat constructor.
  - intros Hno.
    assert (Hname : recordNameOf p (F ++ ".")
                    = inl (ErrDerive (F ++ ".") (baseZone p))).
    { apply recordNameOf_outside_zone. intros [r Hr].
      apply Hno. exists r. by apply absolute_suffix. }
    split; [done|].
    unfold Present, CleanUp. by rewrite Hrec, Hname.
Qed.

(** The challenge for app.example.com in the zone example.com is
    published at _acme-challenge.app. *)
Lemma record_name_is_fqdn_without_zone_witness :
  recordNameOf scenarios.provider "_acme-challenge.app.example.com."
  = inr "_acme-challenge.app"
  /\ Forall (fun req => URL req
       = "https://api.gandi.net/v5/livedns/domains/example.com/records/_acme-challenge.app")
       (snd (Present scenarios.dnsEnv scenarios.provider
                     "app.example.com" "token" "keyAuth"))
  /\ Forall (fun req => URL req
       = "https://api.gandi.net/v5/livedns/domains/example.com/records/_acme-challenge.app/TXT")
       (snd (CleanUp scenarios.dnsEnv scenarios.provider
                     "app.example.com" "token" "keyAuth")).
Proof.
  apply (proj1 (record_name_is_fqdn_without_zone scenarios.dnsEnv
                  scenarios.provider "app.example.com" "token" "keyAuth"
                  "_acme-challenge.app.example.com" "keyAuth" eq_refl)
               "_acme-challenge.app").
  reflexivity.
Defined.

(** A name outside the zone is refused and nothing is sent. *)
Example present_outside_zone :
  Present scenarios.dnsEnv scenarios.provider "app.example.org" "token" "keyAuth"
  = (Some (ErrDerive "_acme-challenge.app.example.org." "example.com"), []).
Proof. vm_compute. reflexivity. Qed.

End GandiProofs.

(* ===================================================================== *)
(** * Properties of the container listing                                 *)
(* ===================================================================== *)

Module ListingProofs.
Import podman text podman_client StringFacts.

(** ** Cutting and splitting *)

Lemma cut_Some sep s before after :
  cut sep s = Some (before, after) ->
  s = before ++ String sep after /\ contains sep before = false.
Proof.
  revert before. induction s as [|a s IH]; intros before; cbn; [done|].
  destruct (decide (a = sep)) as [->|Hne].
  - intros [= <- <-]. by rewrite append_nil.
  - destruct (cut sep s) as [[b r]|] eqn:Hc; [|done].
    intros [= <- <-]. destruct (IH b eq_refl) as [-> Hb].
    rewrite append_cons. split; [done|]. cbn. by rewrite decide_False.
Qed.

Lemma cut_app sep before after :
  contains sep before = false ->
  cut sep (before ++ String sep after) = Some (before, after).
Proof.
  induction before as [|a b IH]; cbn.
  - intros _. rewrite append_nil. cbn. by rewrite decide_True.
  - destruct (decide (a = sep)) as [->|Hne]; [done|]. intros Hb.
    rewrite append_cons. cbn. rewrite decide_False by done. by rewrite IH.
Qed.

(** Four pieces come from three tabs, and put together give the line. *)
Lemma SplitN_four s a b c d :
  SplitN s tab 4 = [a; b; c; d] ->
  s = joinWith tab [a; b; c; d]
  /\ contains tab a = false /\ contains tab b = false
  /\ contains tab c = false.
Proof.
  cbn [SplitN].
  destruct (cut tab s) as [[a' r1]|] eqn:H1; [|done].
  destruct (cut tab r1) as [[b' r2]|] eqn:H2; [|done].
  destruct (cut tab r2) as [[c' r3]|] eqn:H3; [|done].
  intros [= <- <- <- <-].
  apply cut_Some in H1 as [-> Ha], H2 as [-> Hb], H3 as [-> Hc].
  done.
Qed.

Lemma SplitN_join a b c d :
  contains tab a = false -> contains tab b = false ->
  contains tab c = false ->
  SplitN (joinWith tab [a; b; c; d]) tab 4 = [a; b; c; d].
Proof.
  intros Ha Hb Hc. cbn [SplitN joinWith].
  by rewrite !cut_app.
Qed.

Lemma splitAll_nonempty sep s : splitAll sep s <> [].
Proof.
  destruct s as [|a s]; cbn; [done|].
  destruct (decide (a = sep)); [done|]. by destruct (splitAll sep s).
Qed.

Lemma splitAll_app sep line rest :
  contains sep line = false ->
  splitAll sep (line ++ String sep rest) = line :: splitAll sep rest.
Proof.
  induction line as [|a l IH]; cbn.
  - intros _. rewrite append_nil. cbn. by rewrite decide_True.
  - destruct (decide (a = sep)) as [->|Hne]; [done|]. intros Hl.
    rewrite append_cons. cbn. rewrite decide_False by done. by rewrite IH.
Qed.

(** ** Lines *)

Lemma formatListing_cons c cs :
  formatListing (c :: cs) = formatLine c ++ String newline (formatListing cs).
Proof. done. Qed.

Lemma splitAll_formatListing cs :
  Forall (fun c => contains newline (formatLine c) = false) cs ->
  splitAll newline (formatListing cs) = (map formatLine cs ++ [""])%list.
Proof.
  induction 1 as [|c cs Hc _ IH]; [done|].
  rewrite formatListing_cons, splitAll_app by done.
  by rewrite IH.
Qed.

Lemma rawLines_formatListing cs :
  Forall (fun c => contains newline (formatLine c) = false) cs ->
  rawLines (formatListing cs) = map formatLine cs.
Proof.
  intros Hcs. unfold rawLines. rewrite splitAll_formatListing by done.
  rewrite last_snoc. apply removelast_last.
Qed.

Lemma dropCR_id line :
  Go.HasSuffix line (String carriageReturn "") = false -> dropCR line = line.
Proof. intros Hs. unfold dropCR, Go.TrimSuffix. by rewrite Hs. Qed.

Section WithUnicode.
Context `{Unicode}.

Lemma parseLine_Some line c :
  parseLine line = Some c ->
  ID c <> "" /\ Name c <> "" /\ ExposedPort c <> "" /\ FQDN c <> ""
  /\ contains tab (ID c) = false /\ contains tab (ExposedPort c) = false
  /\ exists names label,
       line = joinWith tab [ID c; names; ExposedPort c; label]
       /\ Name c = TrimPrefix names "/" /\ FQDN c = TrimSpace label.
Proof.
  unfold parseLine.
  destruct (SplitN line tab 4) as [|id [|names [|port [|label [|? ?]]]]] eqn:Hs;
    try done.
  case_decide as Hok; [|done]. intros [= <-]. cbn.
  apply SplitN_four in Hs as (-> & Hid & _ & Hport).
  destruct Hok as (? & ? & ? & ?). repeat (split; [done|]).
  by exists names, label.
Qed.

Lemma parseLine_formatLine c :
  printable c -> parseLine (formatLine c) = Some c.
Proof.
  intros (Hid & Hname & Hport & Hfqdn & Ti & Tn & Tp & Hslash & Htrim & _).
  unfold parseLine, formatLine. rewrite SplitN_join by done.
  unfold TrimPrefix. rewrite Hslash, Htrim.
  rewrite decide_True by done. by destruct c.
Qed.

(** A listed container has an fqdn. *)
Lemma ListContainers_fqdn output cs c :
  ListContainers output = Some cs -> c ∈ cs -> FQDN c <> "".
Proof.
  unfold ListContainers. destruct output as [out|]; [|done].
  destruct (ScanLines out) as [lines|]; [|done].
  intros [= <-] Hin. apply list_elem_of_omap in Hin as (line & _ & Hp).
  by apply parseLine_Some in Hp as (_ & _ & _ & ? & _).
Qed.

(** X1.  The listing returns only containers that stand in the output:
    each has an id, a name, a port label and an fqdn, none of them empty,
    and comes from a line of four tab-separated fields holding the id,
    the name with at most one leading slash more, the port label, and a
    label that trims to the fqdn. *)
Theorem listed_containers_stand_in_output output cs c :
  ListContainers output = Some cs -> c ∈ cs ->
  ID c <> "" /\ Name c <> "" /\ ExposedPort c <> "" /\ FQDN c <> ""
  /\ contains tab (ID c) = false /\ contains tab (ExposedPort c) = false
  /\ exists out lines names label,
       output = Some out /\ ScanLines out = Some lines
       /\ joinWith tab [ID c; names; ExposedPort c; label] ∈ lines
       /\ Name c = TrimPrefix names "/" /\ FQDN c = TrimSpace label.
Proof.
  unfold ListContainers. destruct output as [out|]; [|done].
  destruct (ScanLines out) as [lines|] eqn:Hscan; [|done].
  intros [= <-] Hin. apply list_elem_of_omap in Hin as (line & Hline & Hp).
  apply parseLine_Some in Hp
    as (? & ? & ? & ? & ? & ? & names & label & -> & ? & ?).
  repeat (split; [done|]). by exists out, lines, names, label.
Qed.

(** X2.  What podman prints for printable containers is read back as
    these containers, in order. *)
Theorem ListContainers_reads_back cs :
  Forall printable cs ->
  ListContainers (Some (formatListing cs)) = Some cs.
Proof.
  intros Hcs. unfold ListContainers, ScanLines.
  rewrite rawLines_formatListing.
  2:{ eapply Forall_impl; [exact Hcs|]. intros c Hc. apply Hc. }
  rewrite (proj2 (forallb_forall _ _)).
  2:{ intros l Hl. apply in_map_iff in Hl as (c & <- & Hc).
      apply Nat.ltb_lt. rewrite Forall_forall in Hcs.
      apply list_elem_of_In in Hc. apply (Hcs c Hc). }
  f_equal. induction Hcs as [|c cs Hc _ IH]; [done|].
  cbn [map omap list_omap]. rewrite dropCR_id by apply Hc.
  rewrite (parseLine_formatLine c Hc). cbn. by f_equal.
Qed.

End WithUnicode.

Lemma listed_containers_stand_in_output_witness :
  let c := scenarios.c1 in
  ID c <> "" /\ Name c <> "" /\ ExposedPort c <> "" /\ FQDN c <> ""
  /\ contains tab (ID c) = false /\ contains tab (ExposedPort c) = false
  /\ exists out lines names label,
       Some (formatListing [scenarios.c1; examples.c3]) = Some out
       /\ ScanLines out = Some lines
       /\ joinWith tab [ID c; names; ExposedPort c; label] ∈ lines
       /\ Name c = TrimPrefix names "/"
       /\ FQDN c = @TrimSpace asciiText label.
Proof.
  apply (@listed_containers_stand_in_output asciiText
           (Some (formatListing [scenarios.c1; examples.c3]))
           [scenarios.c1; examples.c3] scenarios.c1).
  - by vm_compute.
  - by left.
Defined.

Lemma ListContainers_reads_back_witness :
  @ListContainers asciiText
    (Some (formatListing [scenarios.c1; examples.c3]))
  = Some [scenarios.c1; examples.c3].
Proof.
  apply (@ListContainers_reads_back asciiText).
  repeat (apply List.Forall_cons; [|try apply List.Forall_nil]);
    unfold printable;
    repeat (split; [by vm_compute|]);
    apply Nat.ltb_lt; by vm_compute.
Defined.

End ListingProofs.

(* ===================================================================== *)
(** * More properties of the route reconciliation                         *)
(* ===================================================================== *)

Module ReconcileProofs.
Import podman proxy reconcile RouterProofs.

(** ** One goroutine *)

Lemma commitRoute_changed old c rt st :
  commitRoute old c rt st
  = {| newRoutes := <[FQDN c := rt]> (newRoutes st);
       routesChanged :=
         if decide (old !! FQDN c = Some rt) then routesChanged st else true;
       certChecks :=
         if decide (old !! FQDN c = Some rt) then certChecks st
         else FQDN c :: certChecks st |}.
Proof.
  unfold commitRoute. destruct (old !! FQDN c) as [o|] eqn:Ho.
  - destruct (decide (o = rt)) as [->|Hne].
    + rewrite bool_decide_eq_false_2 by (intros Hne; by apply Hne).
      rewrite !decide_True by done. by destruct st.
    + rewrite bool_decide_eq_true_2 by done.
      rewrite !decide_False by congruence. done.
  - rewrite !decide_False by done. done.
Qed.

Lemma certChecks_foldl env old cs st :
  certChecks (foldl (goroutine env old) st cs)
  = (reverse (omap (checkOf env old) cs) ++ certChecks st)%list.
Proof.
  revert st. induction cs as [|c cs IH]; intros st; [done|].
  cbn [foldl]. rewrite IH. cbn [omap list_omap].
  unfold goroutine, checkOf at 2.
  destruct (resolveRoute env c) as [rt|]; [|done].
  rewrite commitRoute_changed. cbn.
  destruct (decide (old !! FQDN c = Some rt)); [done|].
  by rewrite reverse_cons, <- app_assoc.
Qed.

Lemma routesChanged_checks env old cs :
  routesChanged (foldl (goroutine env old) tickStart cs) = false
  <-> omap (checkOf env old) cs = [].
Proof.
  rewrite routesChanged_foldl_false. split.
  - intros [_ Hall]. induction cs as [|c cs IH]; [done|].
    cbn [omap list_omap]. unfold checkOf at 1.
    destruct (resolveRoute env c) as [rt|] eqn:Hr.
    + rewrite decide_True by (apply Hall; [by left|done]).
      apply IH. intros c' rt' Hin. apply Hall. by right.
    + apply IH. intros c' rt' Hin. apply Hall. by right.
  - intros Hnil. split; [done|]. intros c rt Hin Hr.
    destruct (decide (old !! FQDN c = Some rt)) as [|Hne]; [done|].
    assert (Hc : FQDN c ∈ omap (checkOf env old) cs).
    { apply list_elem_of_omap. exists c. split; [done|].
      unfold checkOf. rewrite Hr. by rewrite decide_False. }
    rewrite Hnil in Hc. by apply elem_of_nil in Hc.
Qed.

(** The certificate checks of a tick whose listing succeeded. *)
Lemma updateRoutes_checks env r cs :
  ListContainers env = Some cs ->
  snd (updateRoutes env r)
  = reverse (omap (checkOf env (routes r)) (schedule env)).
Proof.
  intros Hl. unfold updateRoutes. rewrite Hl. cbn. unfold fanOut.
  rewrite certChecks_foldl. cbn. by rewrite app_nil_r.
Qed.

(** The fqdns a tick hands to the certificate manager. *)
Lemma updateRoutes_checked env r cs fqdn :
  ListContainers env = Some cs ->
  fqdn ∈ snd (updateRoutes env r) <->
  exists c rt, c ∈ schedule env /\ FQDN c = fqdn
               /\ resolveRoute env c = Some rt
               /\ routes r !! fqdn <> Some rt.
Proof.
  intros Hl. rewrite (updateRoutes_checks env r cs Hl).
  rewrite elem_of_reverse, list_elem_of_omap. unfold checkOf. split.
  - intros (c & Hin & Hc).
    destruct (resolveRoute env c) as [rt|] eqn:Hr; [|done].
    case_decide as Hold; [done|]. injection Hc as <-.
    by exists c, rt.
  - intros (c & rt & Hin & <- & Hr & Hold). exists c. split; [done|].
    rewrite Hr. by rewrite decide_False.
Qed.

(** X3.  A tick hands an fqdn to the certificate manager exactly when a
    listed backend claiming it resolved to a route the published table
    does not hold for it.  A tick that triggers no certificate check
    leaves the published table as it is; a tick that triggers one
    publishes the candidate table. *)
Theorem certificate_checks_follow_changes env r cs fqdn :
  ListContainers env = Some cs ->
  (fqdn ∈ snd (updateRoutes env r) <->
   exists c rt, c ∈ schedule env /\ FQDN c = fqdn
                /\ resolveRoute env c = Some rt
                /\ routes r !! fqdn <> Some rt)
  /\ (snd (updateRoutes env r) = [] -> fst (updateRoutes env r) = r)
  /\ (snd (updateRoutes env r) <> [] ->
      routes (fst (updateRoutes env r)) = candidate env).
Proof.
  intros Hl. split; [by apply (updateRoutes_checked env r cs)|].
  rewrite (updateRoutes_checks env r cs Hl). split.
  - intros Hnil. apply (updateRoutes_unchanged env r cs Hl).
    unfold fanOut. apply routesChanged_checks.
    apply (f_equal reverse) in Hnil. by rewrite reverse_involutive in Hnil.
  - intros Hsome. apply (updateRoutes_changed env r cs Hl).
    destruct (routesChanged (fanOut env (routes r))) eqn:Hflag; [done|].
    unfold fanOut in Hflag. apply routesChanged_checks in Hflag.
    rewrite Hflag in Hsome. by destruct Hsome.
Qed.

(** ** The candidate table *)

Lemma candidate_app env pre post :
  foldl (addCandidate env) ∅ (pre ++ post)
  = foldl (addCandidate env) (foldl (addCandidate env) ∅ pre) post.
Proof. apply foldl_app. Qed.

Lemma addCandidate_foldl_other env tbl cs fqdn :
  (forall c, c ∈ cs -> FQDN c = fqdn -> resolveRoute env c = None) ->
  foldl (addCandidate env) tbl cs !! fqdn = tbl !! fqdn.
Proof.
  revert tbl. induction cs as [|c cs IH]; intros tbl Hnone; [done|].
  cbn [foldl]. rewrite IH by (intros c' Hin; apply Hnone; by right).
  unfold addCandidate. destruct (resolveRoute env c) as [rt|] eqn:Hr; [|done].
  apply lookup_insert_ne. intros Heq.
  by rewrite (Hnone c) in Hr; [|by left|].
Qed.

(** X4.  When several backends claim one fqdn, the one whose goroutine takes
    the mutex last has its route in the candidate table; an fqdn is absent
    from the candidate table exactly when no backend claiming it
    resolved. *)
Theorem candidate_holds_last_claim env fqdn :
  (forall pre c post rt,
      schedule env = (pre ++ c :: post)%list ->
      FQDN c = fqdn -> resolveRoute env c = Some rt ->
      (forall c', c' ∈ post -> FQDN c' = fqdn -> resolveRoute env c' = None) ->
      candidate env !! fqdn = Some rt)
  /\ (candidate env !! fqdn = None <->
      forall c, c ∈ schedule env -> FQDN c = fqdn -> resolveRoute env c = None).
Proof.
  unfold candidate. split.
  - intros pre c post rt -> Hf Hr Hpost.
    rewrite candidate_app. cbn [foldl].
    rewrite addCandidate_foldl_other by done.
    unfold addCandidate at 1. rewrite Hr, <- Hf. apply lookup_insert_eq.
  - split.
    + generalize (∅ : gmap string Route) as tbl.
      induction (schedule env) as [|c cs IH] using rev_ind; intros tbl Hnone.
      { intros c Hc. by apply elem_of_nil in Hc. }
      rewrite foldl_app in Hnone. cbn [foldl] in Hnone.
      unfold addCandidate at 1 in Hnone.
      intros c' Hin Hf. apply elem_of_app in Hin as [Hin|Hin].
      * destruct (resolveRoute env c) as [rt|] eqn:Hr.
        -- destruct (decide (FQDN c = fqdn)) as [Heq|Hne].
           ++ by rewrite Heq, lookup_insert_eq in Hnone.
           ++ rewrite lookup_insert_ne in Hnone by done. by eapply IH.
        -- by eapply IH.
      * apply list_elem_of_singleton in Hin as ->.
        destruct (resolveRoute env c) as [rt|] eqn:Hr; [|done].
        by rewrite <- Hf, lookup_insert_eq in Hnone.
    + intros Hnone. by rewrite addCandidate_foldl_other.
Qed.

(** On an empty table the tick of scenario A hands the fqdn of its
    backend to the certificate manager. *)
Lemma certificate_checks_follow_changes_witness :
  ("app.example.com" ∈ snd (updateRoutes scenarios.envA NewRouter) <->
   exists c rt, c ∈ schedule scenarios.envA /\ FQDN c = "app.example.com"
                /\ resolveRoute scenarios.envA c = Some rt
                /\ routes NewRouter !! "app.example.com" <> Some rt)
  /\ (snd (updateRoutes scenarios.envA NewRouter) = [] ->
      fst (updateRoutes scenarios.envA NewRouter) = NewRouter)
  /\ (snd (updateRoutes scenarios.envA NewRouter) <> [] ->
      routes (fst (updateRoutes scenarios.envA NewRouter))
      = candidate scenarios.envA).
Proof.
  apply (certificate_checks_follow_changes scenarios.envA NewRouter
           [scenarios.c1]).
  reflexivity.
Defined.

End ReconcileProofs.

(* ===================================================================== *)
(** * Ticks, interleavings and the update loop                            *)
(* ===================================================================== *)

Module TickProofs.
Import podman proxy reconcile RouterProofs ReconcileProofs.

(** ** Where the entries of a table come from *)

Lemma addCandidate_foldl_sound env tbl cs fqdn rt :
  foldl (addCandidate env) tbl cs !! fqdn = Some rt ->
  tbl !! fqdn = Some rt
  \/ exists c, c ∈ cs /\ FQDN c = fqdn /\ resolveRoute env c = Some rt.
Proof.
  revert tbl. induction cs as [|c cs IH]; intros tbl; [by left|].
  cbn [foldl]. intros Hl. apply IH in Hl as [Hl|(c' & Hin & Hf & Hr)].
  - unfold addCandidate in Hl.
    destruct (resolveRoute env c) as [rt'|] eqn:Hr; [|by left].
    destruct (decide (FQDN c = fqdn)) as [Heq|Hne].
    + rewrite Heq, lookup_insert_eq in Hl. injection Hl as ->.
      right. exists c. split; [by left|done].
    + rewrite lookup_insert_ne in Hl by done. by left.
  - right. exists c'. split; [by right|done].
Qed.

(** With pairwise different fqdns the candidate table holds, for each
    fqdn, the route of the backend claiming it, if that resolved. *)
Lemma candidate_distinct env cs fqdn rt :
  distinct_fqdns cs ->
  foldl (addCandidate env) ∅ cs !! fqdn = Some rt
  <-> exists c, c ∈ cs /\ FQDN c = fqdn /\ resolveRoute env c = Some rt.
Proof.
  intros Hnd. split.
  - intros Hl. apply addCandidate_foldl_sound in Hl as [Hl|Hl]; [|done].
    by rewrite lookup_empty in Hl.
  - intros (c & Hin & Hf & Hr).
    apply list_elem_of_split in Hin as (pre & post & ->).
    rewrite candidate_app. cbn [foldl].
    rewrite addCandidate_foldl_other.
    + unfold addCandidate at 1. rewrite Hr, <- Hf. apply lookup_insert_eq.
    + intros c' Hin' Hf'. exfalso.
      unfold distinct_fqdns in Hnd. rewrite map_app in Hnd. cbn in Hnd.
      apply NoDup_app in Hnd as (_ & _ & Hnd).
      apply NoDup_cons in Hnd as [Hnd _]. apply Hnd.
      rewrite Hf, <- Hf'. apply list_elem_of_fmap. by exists c'.
Qed.

Lemma option_ext {A} (o1 o2 : option A) :
  (forall x, o1 = Some x <-> o2 = Some x) -> o1 = o2.
Proof.
  intros Hx. destruct o1 as [a|], o2 as [b|]; try done.
  - symmetry. by apply Hx.
  - symmetry. by apply Hx.
  - by apply Hx.
Qed.

Lemma routesChanged_Permutation env old cs cs' :
  cs ≡ₚ cs' ->
  routesChanged (foldl (goroutine env old) tickStart cs)
  = routesChanged (foldl (goroutine env old) tickStart cs').
Proof.
  intros Hp.
  assert (Hiff : omap (checkOf env old) cs = []
                 <-> omap (checkOf env old) cs' = []).
  { split; intros Hnil; apply Permutation_nil_r.
    - by rewrite <- Hnil, Hp.
    - by rewrite <- Hnil, Hp. }
  rewrite <- !routesChanged_checks in Hiff.
  destruct (routesChanged (foldl (goroutine env old) tickStart cs)),
           (routesChanged (foldl (goroutine env old) tickStart cs'));
    try done.
  - destruct Hiff as [_ Hx]. discriminate (Hx eq_refl).
  - destruct Hiff as [Hx _]. discriminate (Hx eq_refl).
Qed.

(** X5.  When the listed backends claim pairwise different fqdns, the order in
    which the goroutines take the mutex does not matter: the router after
    the tick is the same, and the same certificate checks are triggered,
    up to their order. *)
Theorem interleaving_is_immaterial env r sched' :
  schedule env ≡ₚ sched' ->
  distinct_fqdns (schedule env) ->
  fst (updateRoutes (reschedule env sched') r) = fst (updateRoutes env r)
  /\ snd (updateRoutes (reschedule env sched') r) ≡ₚ snd (updateRoutes env r).
Proof.
  intros Hp Hnd.
  assert (Hnd' : distinct_fqdns sched').
  { unfold distinct_fqdns in *. by rewrite <- Hp. }
  destruct (ListContainers env) as [cs|] eqn:Hl.
  2:{ unfold updateRoutes. cbn. by rewrite Hl. }
  split.
  - assert (Hcand : candidate (reschedule env sched') = candidate env).
    { apply map_eq. intros fqdn. apply option_ext. intros rt.
      unfold candidate. cbn [schedule reschedule].
      change (addCandidate (reschedule env sched')) with (addCandidate env).
      rewrite !candidate_distinct by done.
      split; intros (c & Hin & Hc); exists c; split; try done.
      + by rewrite Hp.
      + by rewrite <- Hp. }
    assert (Hflag : routesChanged (fanOut (reschedule env sched') (routes r))
                    = routesChanged (fanOut env (routes r))).
    { unfold fanOut. cbn [schedule reschedule].
      change (goroutine (reschedule env sched')) with (goroutine env).
      symmetry. by apply routesChanged_Permutation. }
    unfold updateRoutes. cbn [ListContainers reschedule]. rewrite Hl.
    cbn [fst]. rewrite Hflag.
    destruct (routesChanged (fanOut env (routes r))); [|done].
    f_equal. by rewrite !newRoutes_fanOut.
  - rewrite (updateRoutes_checks (reschedule env sched') r cs) by done.
    rewrite (updateRoutes_checks env r cs) by done.
    cbn [schedule reschedule].
    change (checkOf (reschedule env sched')) with (checkOf env).
    rewrite !reverse_Permutation. by rewrite Hp.
Qed.


Lemma goroutine_unresolved env old st c :
  resolves env c = false -> goroutine env old st c = st.
Proof.
  unfold resolves, goroutine. by destruct (resolveRoute env c).
Qed.

Lemma fanOut_filter env old st cs :
  foldl (goroutine env old) st (filter (fun c => resolves env c = true) cs)
  = foldl (goroutine env old) st cs.
Proof.
  revert st. induction cs as [|c cs IH]; intros st; [done|].
  destruct (resolves env c) eqn:Hr.
  - rewrite filter_cons_True by done. cbn [foldl]. apply IH.
  - rewrite filter_cons_False by (by rewrite Hr). cbn [foldl].
    rewrite goroutine_unresolved by done. apply IH.
Qed.

(** X7.  Backends that do not resolve (the inspection fails, no network has
    an address, or the port label is no number) are dropped: the tick
    ends as if they had not been listed, for the router and for the
    certificate checks alike. *)
Theorem unresolved_backends_are_dropped env r :
  updateRoutes
    (reschedule env (filter (fun c => resolves env c = true) (schedule env))) r
  = updateRoutes env r.
Proof.
  unfold updateRoutes, fanOut. cbn [ListContainers schedule reschedule].
  change (goroutine (reschedule env
            (filter (fun c => resolves env c = true) (schedule env))))
    with (goroutine env).
  by rewrite fanOut_filter.
Qed.

(** Two backends, their goroutines in either order. *)
Lemma interleaving_is_immaterial_witness :
  fst (updateRoutes (reschedule examples.envTwo [examples.c2; scenarios.c1])
                    scenarios.twoRoutes)
  = fst (updateRoutes examples.envTwo scenarios.twoRoutes)
  /\ snd (updateRoutes (reschedule examples.envTwo
                          [examples.c2; scenarios.c1])
                       scenarios.twoRoutes)
     ≡ₚ snd (updateRoutes examples.envTwo scenarios.twoRoutes).
Proof.
  apply (interleaving_is_immaterial examples.envTwo scenarios.twoRoutes
           [examples.c2; scenarios.c1]).
  - apply perm_swap.
  - apply (bool_decide_unpack _). by vm_compute.
Defined.


End TickProofs.

(* ===================================================================== *)
(** * Properties of the update loop                                       *)
(* ===================================================================== *)

Module LoopProofs.
Import podman proxy reconcile RouterProofs ReconcileProofs TickProofs.

Lemma Atoi_range s v :
  Go.Atoi s = Some v -> Go.minInt64 <= v <= Go.maxInt64.
Proof.
  unfold Go.Atoi.
  destruct (match s with
            | String "+"%char rest => (false, rest)
            | String "-"%char rest => (true, rest)
            | _ => (false, s)
            end) as [neg body].
  destruct body as [|a body]; [done|].
  destruct (Go.digits (String a body) 0) as [n|]; [|done].
  destruct (_ && _) eqn:Hr; [|done]. intros [= <-].
  apply andb_true_iff in Hr as [H1 H2]. lia.
Qed.

Lemma resolveRoute_resolved env c rt :
  resolveRoute env c = Some rt -> resolved rt.
Proof.
  unfold resolveRoute, resolved.
  destruct (InspectContainer env (ID c)) as [i|]; [|done].
  case_decide as Hip; [done|].
  destruct (Go.Atoi (ExposedPort c)) as [p|] eqn:Hp; [|done].
  intros [= <-]. cbn. split; [done|]. by apply (Atoi_range (ExposedPort c)).
Qed.

(** Every entry of the table after a tick was in the table before it or
    is the route of a listed backend that resolved. *)
Lemma updateRoutes_entries env r fqdn rt :
  routes (fst (updateRoutes env r)) !! fqdn = Some rt ->
  routes r !! fqdn = Some rt
  \/ exists c, c ∈ schedule env /\ FQDN c = fqdn
                /\ resolveRoute env c = Some rt.
Proof.
  destruct (ListContainers env) as [cs|] eqn:Hl.
  2:{ unfold updateRoutes. rewrite Hl. by left. }
  rewrite (updateRoutes_published env r cs) by done.
  destruct (routesChanged (fanOut env (routes r))); [|by left].
  unfold candidate. intros Hc.
  apply addCandidate_foldl_sound in Hc as [Hc|Hc]; [|by right].
  by rewrite lookup_empty in Hc.
Qed.

(** The loop returns at the end of the context: what it receives after
    that has no effect. *)
Lemma RunUpdateLoop_Done pre post r :
  RunUpdateLoop (pre ++ Done :: post) r = RunUpdateLoop pre r.
Proof.
  revert r. induction pre as [|[env|] pre IH]; intros r; cbn; [done| |done].
  apply IH.
Qed.

(** The routes of the loop are routes of resolved backends. *)
Lemma RunUpdateLoop_routes signals r :
  (forall f rt', routes r !! f = Some rt' -> resolved rt') ->
  forall fqdn rt,
    routes (RunUpdateLoop signals r) !! fqdn = Some rt -> resolved rt.
Proof.
  revert r. induction signals as [|[env|] signals IH]; intros r Hr; cbn.
  - apply Hr.
  - apply IH. intros f rt' Hl.
    apply updateRoutes_entries in Hl as [Hl|(c & _ & _ & Hc)].
    + by apply (Hr f).
    + by apply (resolveRoute_resolved env c).
  - apply Hr.
Qed.

(** X8.  Whatever the loop receives, every route it ever publishes has an
    address that is not empty and a port within the range of [int],
    provided the routes it started with have.  A router from [NewRouter]
    starts with none. *)
Theorem published_routes_are_resolved signals r fqdn rt :
  (forall f rt', routes r !! f = Some rt' -> resolved rt') ->
  GetRoute (RunUpdateLoop signals r) fqdn = Some rt ->
  resolved rt.
Proof.
  intros Hr Hg. unfold GetRoute in Hg.
  by apply (RunUpdateLoop_routes signals r Hr fqdn).
Qed.

Section WithUnicode.
Context `{text.Unicode}.

(** X9.  When the listing of a tick is what [ListContainers] of the podman
    client returned, no certificate check is triggered for an empty
    fqdn. *)
Theorem checked_fqdns_are_not_empty env output r fqdn :
  ListContainers env = podman_client.ListContainers output ->
  coherent env ->
  fqdn ∈ snd (updateRoutes env r) ->
  fqdn <> "".
Proof.
  intros Hl [_ Hsched] Hin.
  destruct (ListContainers env) as [cs|] eqn:Hcs.
  2:{ unfold updateRoutes in Hin. rewrite Hcs in Hin.
      by apply elem_of_nil in Hin. }
  apply (updateRoutes_checked env r cs fqdn Hcs) in Hin
    as (c & rt & Hc & <- & _).
  rewrite (Hsched cs eq_refl) in Hc.
  exact (ListingProofs.ListContainers_fqdn output cs c (eq_sym Hl) Hc).
Qed.

End WithUnicode.
(** A loop that starts empty, receives a tick, a tick whose listing fails
    and the end of its context serves the backend of the first tick. *)
Lemma published_routes_are_resolved_witness :
  resolved {| TargetIP := "10.0.0.5"; TargetPort := 8080 |}.
Proof.
  apply (published_routes_are_resolved
           [Tick scenarios.envA; Tick scenarios.envDown; Done;
            Tick examples.envTwo]
           NewRouter "app.example.com").
  - intros f rt' Hl. unfold NewRouter in Hl. cbn in Hl.
    by rewrite lookup_empty in Hl.
  - by vm_compute.
Defined.

Lemma checked_fqdns_are_not_empty_witness :
  "app.example.com" ∈ snd (updateRoutes scenarios.envA NewRouter)
  /\ "app.example.com" <> "".
Proof.
  assert (Hin : "app.example.com"
                ∈ snd (updateRoutes scenarios.envA NewRouter)).
  { vm_compute. by left. }
  split; [exact Hin|].
  apply (@checked_fqdns_are_not_empty text.asciiText scenarios.envA
           (Some (podman_client.formatListing [scenarios.c1]))
           NewRouter "app.example.com").
  - by vm_compute.
  - apply envA_coherent.
  - exact Hin.
Defined.

End LoopProofs.

(* ===================================================================== *)
(** * What the certificate manager leaves alone                           *)
(* ===================================================================== *)

Module FrameProofs.
Import certs frames setup CertProofs ConcurrencyProofs StringFacts.

Lemma touches_only_refl fqdn w : touches_only fqdn w w.
Proof. by split. Qed.

Lemma touches_only_trans fqdn w1 w2 w3 :
  touches_only fqdn w1 w2 -> touches_only fqdn w2 w3 ->
  touches_only fqdn w1 w3.
Proof.
  intros [Hc1 Hd1] [Hc2 Hd2]. split.
  - intros k Hk. by rewrite Hc2, Hc1.
  - intros p Hp1 Hp2. by rewrite Hd2, Hd1.
Qed.

(** Only the actions recorded differ. *)
Lemma touches_only_trace fqdn w t :
  touches_only fqdn w {| disk := disk w; certs := certs.certs w; trace := t |}.
Proof. by split. Qed.

(** ** Paths under the certificate directory *)

Lemma same_length_tails (s t a b : string) :
  s ++ a = t ++ b -> String.length a = String.length b -> a = b.
Proof.
  intros Heq Hlen.
  assert (Hst : String.length s = String.length t).
  { apply (f_equal String.length) in Heq. rewrite !length_append in Heq. lia. }
  rewrite <- (substring_tail s a), <- (substring_tail t b).
  by rewrite Heq, Hst, Hlen.
Qed.

Lemma certFile_is_no_keyFile f g : certFileOf f <> keyFileOf g.
Proof.
  unfold certFileOf, keyFileOf, Join. intros Heq.
  apply (inj (String.append certificatesPath)) in Heq.
  apply (inj (String.append "/")) in Heq.
  by apply same_length_tails in Heq.
Qed.

Lemma keyFileOf_inj f g : keyFileOf f = keyFileOf g -> f = g.
Proof.
  unfold keyFileOf, Join. intros Heq.
  apply (inj (String.append certificatesPath)) in Heq.
  apply (inj (String.append "/")) in Heq.
  by apply append_inv_tail in Heq.
Qed.

Lemma accountKeyPath_is_keyFile : accountKeyPath = keyFileOf "acme_account".
Proof. reflexivity. Qed.

Section WithCrypto.
Context `{Crypto}.
Local Arguments loadCertFromFile : simpl never.

(** ** The operations, one by one *)

Lemma loadCertFromFile_touches fqdn w :
  touches_only fqdn w (snd (loadCertFromFile fqdn w)).
Proof.
  destruct (persisted (disk w) fqdn) as [[tc expiry]|] eqn:Hp.
  - rewrite (loadCertFromFile_ok fqdn w tc expiry Hp). split; cbn; [|done].
    intros k Hk. by rewrite lookup_insert_ne.
  - destruct (loadCertFromFile_err fqdn w Hp) as (e & w' & Hl & Hd & Hc & _).
    rewrite Hl. cbn. split; intros; congruence.
Qed.

Lemma os_WriteFile_touches_cert o fqdn content w :
  touches_only fqdn w (snd (os_WriteFile o (certFileOf fqdn) content w)).
Proof.
  unfold os_WriteFile. unfold_m. cbn.
  destruct o as [|[written|]]; cbn; split; cbn; try done;
    intros p Hp _; by rewrite lookup_insert_ne.
Qed.

Lemma os_WriteFile_touches_key o fqdn content w :
  touches_only fqdn w (snd (os_WriteFile o (keyFileOf fqdn) content w)).
Proof.
  unfold os_WriteFile. unfold_m. cbn.
  destruct o as [|[written|]]; cbn; split; cbn; try done;
    intros p _ Hp; by rewrite lookup_insert_ne.
Qed.

Lemma storeObtained_touches env fqdn certRes w :
  touches_only fqdn w (snd (storeObtained env fqdn certRes w)).
Proof.
  unfold storeObtained. unfold_m.
  pose proof (os_WriteFile_touches_cert (certWrite env) fqdn
                (res_Certificate certRes) w) as H1.
  destruct (os_WriteFile (certWrite env) (certFileOf fqdn)
              (res_Certificate certRes) w) as [[[]|e1] w1]; cbn in *; [|done].
  pose proof (os_WriteFile_touches_key (keyWrite env) fqdn
                (res_PrivateKey certRes) w1) as H2.
  destruct (os_WriteFile (keyWrite env) (keyFileOf fqdn)
              (res_PrivateKey certRes) w1) as [[[]|e2] w2]; cbn in *.
  2:{ by eapply touches_only_trans. }
  pose proof (loadCertFromFile_touches fqdn w2) as H3.
  destruct (loadCertFromFile fqdn w2) as [r3 w3]; cbn in *.
  eapply touches_only_trans; [|exact H3]. by eapply touches_only_trans.
Qed.

Lemma receiveOrder_touches env fqdn w :
  touches_only fqdn w (snd (receiveOrder env fqdn w)).
Proof.
  unfold receiveOrder. destruct (Obtain env).
  - apply storeObtained_touches.
  - apply touches_only_refl.
Qed.

Lemma step_touches m c w :
  c_fqdn (fst (step m c w)) = c_fqdn c
  /\ touches_only (c_fqdn c) w (snd (step m c w)).
Proof.
  split; [apply step_budget|].
  unfold step. destruct (c_pc c).
  - unfold os_Stat. unfold_m. cbn.
    destruct (disk w !! certFileOf (c_fqdn c)) as [[| |]|]; cbn;
      apply touches_only_trace.
  - pose proof (loadCertFromFile_touches (c_fqdn c) w) as Hl.
    destruct (loadCertFromFile (c_fqdn c) w) as [[expiry|e] w1];
      cbn [fst snd] in *; [|done].
    by destruct (_ <? _).
  - unfold sendOrder. unfold_m. cbn.
    destruct (legoClient m); cbn; apply touches_only_trace.
  - cbn. apply receiveOrder_touches.
  - apply touches_only_refl.
Qed.

(** ** Interleavings *)

Lemma touches_among_refl fqdns w : touches_among fqdns w w.
Proof. by split. Qed.

Lemma touches_among_trans fqdns w1 w2 w3 :
  touches_among fqdns w1 w2 -> touches_among fqdns w2 w3 ->
  touches_among fqdns w1 w3.
Proof.
  intros [Hc1 Hd1] [Hc2 Hd2]. split.
  - intros k Hk. by rewrite Hc2, Hc1.
  - intros p Hp. by rewrite Hd2, Hd1.
Qed.

Lemma touches_only_among fqdn fqdns w w' :
  fqdn ∈ fqdns -> touches_only fqdn w w' -> touches_among fqdns w w'.
Proof.
  intros Hin [Hc Hd]. split.
  - intros k Hk. apply Hc. intros ->. by apply Hk.
  - intros p Hp. destruct (Hp fqdn Hin). by apply Hd.
Qed.

Lemma stepAt_frame m i pool w :
  map c_fqdn (fst (stepAt m i pool w)) = map c_fqdn pool
  /\ touches_among (map c_fqdn pool) w (snd (stepAt m i pool w)).
Proof.
  revert i. induction pool as [|c rest IH]; intros i.
  { destruct i; cbn; (split; [done|]); apply touches_among_refl. }
  destruct i as [|j]; cbn [stepAt].
  - destruct (step_touches m c w) as [Hf Ht].
    destruct (step m c w) as [c' w']. cbn [fst snd map] in *.
    split; [by rewrite Hf|].
    apply (touches_only_among (c_fqdn c)); [by left|done].
  - destruct (IH j) as (Hf & [Hc Hd]).
    destruct (stepAt m j rest w) as [rest' w']. cbn [fst snd map] in *.
    split; [by rewrite Hf|]. split.
    + intros k Hk. apply Hc. intros Hin. apply Hk. by right.
    + intros p Hp. apply Hd. intros f Hin. apply Hp. by right.
Qed.

Lemma run_frame m sched pool w :
  map c_fqdn (fst (run m sched (pool, w))) = map c_fqdn pool
  /\ touches_among (map c_fqdn pool) w (snd (run m sched (pool, w))).
Proof.
  revert pool w. induction sched as [|i sched IH]; intros pool w.
  { split; [done|]. apply touches_among_refl. }
  rewrite run_cons. cbn [fst snd].
  destruct (stepAt_frame m i pool w) as [Hf1 Ht1].
  destruct (stepAt m i pool w) as [pool1 w1]. cbn [fst snd] in *.
  destruct (IH pool1 w1) as [Hf2 Ht2]. rewrite Hf1 in Hf2, Ht2.
  split; [done|]. by eapply touches_among_trans.
Qed.

Lemma certFileOf_inj f g : certFileOf f = certFileOf g -> f = g.
Proof.
  unfold certFileOf, Join. intros Heq.
  apply (inj (String.append certificatesPath)) in Heq.
  apply (inj (String.append "/")) in Heq.
  by apply append_inv_tail in Heq.
Qed.

Lemma run_leaves_alone m sched pool w fqdn :
  Forall (fun c => c_fqdn c <> fqdn) pool ->
  let w' := snd (run m sched (pool, w)) in
  certs.certs w' !! fqdn = certs.certs w !! fqdn
  /\ disk w' !! certFileOf fqdn = disk w !! certFileOf fqdn
  /\ disk w' !! keyFileOf fqdn = disk w !! keyFileOf fqdn.
Proof.
  intros Hpool. cbn zeta.
  destruct (run_frame m sched pool w) as [_ [Hc Hd]].
  assert (Hnot : forall f, f ∈ map c_fqdn pool -> f <> fqdn).
  { intros f Hin. apply list_elem_of_fmap in Hin as (c & -> & Hin).
    rewrite Forall_forall in Hpool. by apply Hpool. }
  split; [|split].
  - apply Hc. intros Hin. by apply (Hnot fqdn).
  - apply Hd. intros f Hin. split.
    + intros Heq. apply certFileOf_inj in Heq. by apply (Hnot f).
    + apply certFile_is_no_keyFile.
  - apply Hd. intros f Hin. split.
    + intros Heq. by apply (certFile_is_no_keyFile f fqdn).
    + intros Heq. apply keyFileOf_inj in Heq. by apply (Hnot f).
Qed.

(** ** The cache only grows *)

Lemma loadCertFromFile_keeps_cached fqdn w k :
  is_Some (certs.certs w !! k) ->
  is_Some (certs.certs (snd (loadCertFromFile fqdn w)) !! k).
Proof.
  intros Hk.
  destruct (persisted (disk w) fqdn) as [[tc expiry]|] eqn:Hp.
  - rewrite (loadCertFromFile_ok fqdn w tc expiry Hp). cbn.
    destruct (decide (k = fqdn)) as [->|Hne].
    + rewrite lookup_insert_eq. by eexists.
    + by rewrite lookup_insert_ne.
  - destruct (loadCertFromFile_err fqdn w Hp) as (e & w' & Hl & _ & Hc & _).
    rewrite Hl. cbn. by rewrite Hc.
Qed.

Lemma storeObtained_keeps_cached env fqdn certRes w k :
  is_Some (certs.certs w !! k) ->
  is_Some (certs.certs (snd (storeObtained env fqdn certRes w)) !! k).
Proof.
  intros Hk. unfold storeObtained, os_WriteFile. unfold_m. cbn.
  destruct (certWrite env) as [|[?|]]; cbn; try done.
  destruct (keyWrite env) as [|[?|]]; cbn; try done.
  match goal with
  | |- context [loadCertFromFile fqdn ?w0] =>
      pose proof (loadCertFromFile_keeps_cached fqdn w0 k Hk) as Hl;
      destruct (loadCertFromFile fqdn w0) as [r3 w3]
  end.
  done.
Qed.

Lemma step_keeps_cached m c w k :
  is_Some (certs.certs w !! k) ->
  is_Some (certs.certs (snd (step m c w)) !! k).
Proof.
  intros Hk. unfold step. destruct (c_pc c).
  - unfold os_Stat. unfold_m. cbn.
    by destruct (disk w !! certFileOf (c_fqdn c)) as [[| |]|].
  - pose proof (loadCertFromFile_keeps_cached (c_fqdn c) w k Hk) as Hl.
    destruct (loadCertFromFile (c_fqdn c) w) as [[expiry|e] w1];
      cbn [fst snd] in *; [|done].
    by destruct (_ <? _).
  - unfold sendOrder. unfold_m. cbn. by destruct (legoClient m).
  - cbn. unfold receiveOrder. destruct (Obtain (c_env c)); [|done].
    by apply storeObtained_keeps_cached.
  - done.
Qed.

Lemma stepAt_keeps_cached m i pool w k :
  is_Some (certs.certs w !! k) ->
  is_Some (certs.certs (snd (stepAt m i pool w)) !! k).
Proof.
  intros Hk. revert i. induction pool as [|c rest IH]; intros i.
  { by destruct i. }
  destruct i as [|j]; cbn [stepAt].
  - pose proof (step_keeps_cached m c w k Hk).
    by destruct (step m c w).
  - specialize (IH j). by destruct (stepAt m j rest w).
Qed.

(** X10.  Checks made for other fqdns, in any number and interleaved in
    any way, leave a host's record alone: its cached certificate, its
    certificate file and its key file are after the run what they were
    before.  The names are host names, without a path separator. *)
Theorem calls_leave_other_fqdns_alone m sched pool w fqdn :
  plainName fqdn ->
  Forall (fun c => plainName (c_fqdn c) /\ c_fqdn c <> fqdn) pool ->
  let w' := snd (run m sched (pool, w)) in
  certs.certs w' !! fqdn = certs.certs w !! fqdn
  /\ disk w' !! certFileOf fqdn = disk w !! certFileOf fqdn
  /\ disk w' !! keyFileOf fqdn = disk w !! keyFileOf fqdn.
Proof.
  intros _ Hpool. apply run_leaves_alone.
  eapply Forall_impl; [exact Hpool|]. by intros c [_ Hne].
Qed.

(** X11.  The key of the ACME account sits in the certificate directory
    under the name of a key file, that of the host "acme_account".  The
    checks never write it, whatever their interleaving, provided no
    backend claims that name as its fqdn. *)
Theorem calls_leave_account_key_alone m sched pool w :
  Forall (fun c => plainName (c_fqdn c) /\ c_fqdn c <> "acme_account") pool ->
  disk (snd (run m sched (pool, w))) !! accountKeyPath
  = disk w !! accountKeyPath.
Proof.
  intros Hpool. rewrite accountKeyPath_is_keyFile.
  apply (run_leaves_alone m sched pool w "acme_account").
  eapply Forall_impl; [exact Hpool|]. by intros c [_ Hne].
Qed.

(** X12.  The cache is never emptied: a name that has a cached
    certificate has one after any run of checks, and after any lookup of
    a handshake. *)
Theorem cache_never_evicts m sched pool w hello k :
  is_Some (certs.certs w !! k) ->
  is_Some (certs.certs (snd (run m sched (pool, w))) !! k)
  /\ is_Some (certs.certs (snd (GetCertificateForSNI hello w)) !! k).
Proof.
  intros Hk. split.
  - revert pool w Hk. induction sched as [|i sched IH]; intros pool w Hk.
    { done. }
    rewrite run_cons. cbn [fst snd].
    pose proof (stepAt_keeps_cached m i pool w k Hk) as Hs.
    destruct (stepAt m i pool w) as [pool1 w1]. by apply IH.
  - unfold GetCertificateForSNI.
    destruct (decide (ServerName hello = "")); [done|].
    unfold cacheGet. unfold_m. cbn.
    destruct (certs.certs w !! ServerName hello) eqn:Hc; cbn; [done|].
    match goal with
    | |- context [loadCertFromFile ?f ?w0] =>
        pose proof (loadCertFromFile_keeps_cached f w0 k Hk) as Hl;
        destruct (loadCertFromFile f w0) as [[expiry|e] w1]
    end; cbn in *; [|done].
    by destruct (certs.certs w1 !! ServerName hello).
Qed.

End WithCrypto.

(** A backend that claims the fqdn "acme_account" does have the account
    key replaced by the key of its certificate. *)
Example backend_named_acme_account_replaces_key :
  disk (snd (@obtainOrRenewCert toyCrypto scenarios.manager
               scenarios.allGoesWell "acme_account" scenarios.emptyVolume))
    !! accountKeyPath
  = Some (Regular (res_PrivateKey scenarios.issued)).
Proof. by vm_compute. Qed.

Lemma calls_leave_other_fqdns_alone_witness :
  let w' := snd (@run toyCrypto scenarios.manager [0; 1; 0; 0; 1; 0; 1; 1]%nat
                   (spawn scenarios.host
                      [scenarios.allGoesWell; scenarios.keyWriteFails],
                    scenarios.stored)) in
  certs.certs w' !! "old.example.com" = certs.certs scenarios.stored !! "old.example.com"
  /\ disk w' !! certFileOf "old.example.com"
     = disk scenarios.stored !! certFileOf "old.example.com"
  /\ disk w' !! keyFileOf "old.example.com"
     = disk scenarios.stored !! keyFileOf "old.example.com".
Proof.
  apply (@calls_leave_other_fqdns_alone toyCrypto).
  - reflexivity.
  - repeat constructor; discriminate.
Defined.

Lemma calls_leave_account_key_alone_witness :
  disk (snd (@run toyCrypto scenarios.manager [0; 1; 0; 0; 1; 0; 1; 1]%nat
               (spawn scenarios.host
                  [scenarios.allGoesWell; scenarios.keyWriteFails],
                scenarios.stored))) !! accountKeyPath
  = disk scenarios.stored !! accountKeyPath.
Proof.
  apply (@calls_leave_account_key_alone toyCrypto).
  repeat constructor; discriminate.
Defined.

Lemma cache_never_evicts_witness :
  let w := snd (@GetCertificateForSNI toyCrypto
                  {| ServerName := scenarios.host |} scenarios.stored) in
  is_Some (certs.certs (snd (@run toyCrypto scenarios.manager [0; 0; 0; 0]%nat
                               (spawn scenarios.host [scenarios.keyWriteFails],
                                w))) !! scenarios.host)
  /\ is_Some (certs.certs
                (snd (@GetCertificateForSNI toyCrypto
                        {| ServerName := "old.example.com" |} w))
                !! scenarios.host).
Proof.
  apply (@cache_never_evicts toyCrypto).
  vm_compute. by eexists.
Defined.

End FrameProofs.

(* ===================================================================== *)
(** * Issuing, checking and serving, in sequence                          *)
(* ===================================================================== *)

Module ServingProofs.
Import certs frames CertProofs FrameProofs.

Section WithCrypto.
Context `{Crypto}.
Local Arguments loadCertFromFile : simpl never.

(** The volume after both files of an order were written holds what the
    material parses to. *)
Lemma persisted_written d fqdn certRes :
  persisted (<[keyFileOf fqdn := Regular (res_PrivateKey certRes)]>
               (<[certFileOf fqdn := Regular (res_Certificate certRes)]> d))
            fqdn
  = issuedRecord certRes.
Proof.
  unfold persisted, issuedRecord.
  rewrite lookup_insert_ne by (intros Heq; by apply (certFile_is_no_keyFile fqdn fqdn)).
  by rewrite !lookup_insert_eq.
Qed.

(** An order that is answered, stored and parsed, from its entry to the
    cache. *)
Lemma obtainOrRenewCert_stored m env fqdn w certRes tc notAfter :
  is_Some (legoClient m) ->
  Obtain env = Some certRes ->
  certWrite env = WriteOk ->
  keyWrite env = WriteOk ->
  issuedRecord certRes = Some (tc, notAfter) ->
  obtainOrRenewCert m env fqdn w
  = (Ok tt,
     {| disk := <[keyFileOf fqdn := Regular (res_PrivateKey certRes)]>
                  (<[certFileOf fqdn := Regular (res_Certificate certRes)]>
                     (disk w));
        certs := <[fqdn := tc]> (certs w);
        trace := EvCachePut fqdn :: EvReadFile (keyFileOf fqdn)
                 :: EvReadFile (certFileOf fqdn) :: EvLoad fqdn
                 :: EvWriteFile (keyFileOf fqdn)
                 :: EvWriteFile (certFileOf fqdn)
                 :: EvAcmeOrder fqdn :: EvObtain fqdn :: trace w |}).
Proof.
  intros [client Hm] Ho Hcw Hkw Hrec.
  unfold obtainOrRenewCert, Certificate_Obtain, storeObtained, os_WriteFile.
  unfold_m. cbn. rewrite Hm, Ho. cbn. rewrite Hcw. cbn. rewrite Hkw. cbn.
  erewrite loadCertFromFile_ok;
    [|cbn; rewrite persisted_written; exact Hrec].
  reflexivity.
Qed.

(** The check of a certificate that loads: the load, then the decision on
    its expiry. *)
Lemma CheckAndManageCert_loaded m env fqdn w tc notAfter :
  persisted (disk w) fqdn = Some (tc, notAfter) ->
  CheckAndManageCert m env fqdn w
  = manage m env fqdn (Go.Until notAfter (now env) <? renewBefore m)
      {| disk := disk w;
         certs := <[fqdn := tc]> (certs w);
         trace := EvCachePut fqdn :: EvReadFile (keyFileOf fqdn)
                  :: EvReadFile (certFileOf fqdn) :: EvLoad fqdn
                  :: EvStat (certFileOf fqdn) :: trace w |}.
Proof.
  intros Hp. destruct (persisted_cert_file _ _ _ _ Hp) as [certData Hc].
  unfold CheckAndManageCert, os_Stat. unfold_m. cbn. rewrite Hc. cbn.
  by erewrite loadCertFromFile_ok by (cbn; exact Hp).
Qed.

(** X13.  Issue, then serve: when the ACME order is answered, both files
    are written and the material parses, the call returns no error, the
    volume holds the new pair, and the next handshake for the fqdn gets
    the new certificate from the cache, without a file being read,
    whatever was cached for the fqdn before. *)
Theorem issued_certificate_is_served m env fqdn w certRes tc notAfter :
  fqdn <> "" ->
  is_Some (legoClient m) ->
  Obtain env = Some certRes ->
  certWrite env = WriteOk ->
  keyWrite env = WriteOk ->
  issuedRecord certRes = Some (tc, notAfter) ->
  let w' := snd (obtainOrRenewCert m env fqdn w) in
  fst (obtainOrRenewCert m env fqdn w) = Ok tt
  /\ persisted (disk w') fqdn = Some (tc, notAfter)
  /\ GetCertificateForSNI {| ServerName := fqdn |} w'
     = (Ok tc, {| disk := disk w'; certs := certs w';
                  trace := EvCacheGet fqdn :: trace w' |}).
Proof.
  intros Hne Hm Ho Hcw Hkw Hrec. cbn zeta.
  rewrite (obtainOrRenewCert_stored m env fqdn w certRes tc notAfter)
    by done.
  cbn [fst snd disk certs trace].
  split; [done|]. split; [by rewrite persisted_written|].
  apply (GetCertificateForSNI_hit {| ServerName := fqdn |}); cbn; [done|].
  by rewrite lookup_insert_eq.
Qed.

(** X14.  A name that was served stays served: after a lookup that
    returned a certificate, every later lookup of the name returns the
    same certificate from the cache and reads no file, whatever has
    become of the volume, as long as the cached record of the name is the
    one the lookup left. *)
Theorem served_name_stays_served hello w cert w2 :
  fst (GetCertificateForSNI hello w) = Ok cert ->
  certs w2 !! ServerName hello
  = certs (snd (GetCertificateForSNI hello w)) !! ServerName hello ->
  GetCertificateForSNI hello w2
  = (Ok cert, {| disk := disk w2; certs := certs w2;
                 trace := EvCacheGet (ServerName hello) :: trace w2 |}).
Proof.
  intros Hok Hsame.
  destruct (decide (ServerName hello = "")) as [He|Hne].
  { unfold GetCertificateForSNI in Hok. by rewrite decide_True in Hok. }
  apply GetCertificateForSNI_hit; [done|]. rewrite Hsame. clear Hsame.
  destruct (certs w !! ServerName hello) as [c|] eqn:Hc.
  { rewrite (GetCertificateForSNI_hit hello w c Hne Hc) in *. cbn in *.
    congruence. }
  destruct (persisted (disk w) (ServerName hello)) as [[tc expiry]|] eqn:Hp.
  { rewrite (GetCertificateForSNI_miss_loaded hello w tc expiry Hne Hc Hp)
      in *.
    cbn in *. rewrite lookup_insert_eq. congruence. }
  destruct (GetCertificateForSNI_miss_failed hello w Hne Hc Hp)
    as (w' & Hg & _).
  by rewrite Hg in Hok.
Qed.

(** X15.  What a lookup can return.  A certificate is returned only for a
    name that is not empty, and is then the cached record of the name.
    The only errors are the missing-SNI error, for the empty name and no
    other, and the not-available error, for a name with no cached record
    whose persisted pair does not load; the inconsistency error of the
    code is never returned. *)
Theorem GetCertificateForSNI_outcomes hello w :
  let fqdn := ServerName hello in
  let w' := snd (GetCertificateForSNI hello w) in
  match fst (GetCertificateForSNI hello w) with
  | Ok cert => fqdn <> "" /\ certs w' !! fqdn = Some cert
  | Err e =>
      (e = ErrMissingSNI /\ fqdn = "")
      \/ (e = ErrNotAvailable fqdn /\ fqdn <> ""
          /\ certs w !! fqdn = None /\ persisted (disk w) fqdn = None)
  end.
Proof.
  cbn zeta. destruct (decide (ServerName hello = "")) as [He|Hne].
  { unfold GetCertificateForSNI. rewrite decide_True by done. cbn. by left. }
  destruct (certs w !! ServerName hello) as [c|] eqn:Hc.
  { by rewrite (GetCertificateForSNI_hit hello w c Hne Hc). }
  destruct (persisted (disk w) (ServerName hello)) as [[tc expiry]|] eqn:Hp.
  { rewrite (GetCertificateForSNI_miss_loaded hello w tc expiry Hne Hc Hp).
    cbn. by rewrite lookup_insert_eq. }
  destruct (GetCertificateForSNI_miss_failed hello w Hne Hc Hp)
    as (w' & Hg & _).
  rewrite Hg. cbn. by right.
Qed.

(** X16.  The check of a certificate that loads and is not due brings the
    cache in line with the volume: the cached record of the fqdn becomes
    the persisted one, whatever was cached before, nothing is written,
    nothing is ordered, and the next handshake gets the persisted
    certificate. *)
Theorem check_brings_cache_in_line m env fqdn w tc notAfter :
  fqdn <> "" ->
  persisted (disk w) fqdn = Some (tc, notAfter) ->
  renewBefore m <= Go.Until notAfter (now env) ->
  let w' := CheckAndManageCert m env fqdn w in
  disk w' = disk w
  /\ certs w' = <[fqdn := tc]> (certs w)
  /\ (exists evs, trace w' = (evs ++ trace w)%list
                  /\ Forall (fun e => issues e = false) evs)
  /\ fst (GetCertificateForSNI {| ServerName := fqdn |} w') = Ok tc.
Proof.
  intros Hne Hp Hfresh. cbn zeta.
  rewrite (CheckAndManageCert_loaded m env fqdn w tc notAfter Hp).
  assert ((Go.Until notAfter (now env) <? renewBefore m) = false) as ->
    by (apply Z.ltb_ge; lia).
  unfold manage. cbn [disk certs trace].
  split; [done|]. split; [done|]. split.
  - eexists [_; _; _; _; _]. split; [reflexivity|]. by repeat constructor.
  - erewrite (GetCertificateForSNI_hit {| ServerName := fqdn |}); [done|done|].
    cbn. by rewrite lookup_insert_eq.
Qed.

(** X17.  Whether a renewal settles.  After an order that was answered,
    stored and parsed, the next check of the fqdn orders again exactly
    when the new certificate is itself within [renewBefore] of its
    expiry at that check; otherwise it enters no obtain and leaves the
    volume as the order wrote it. *)
Theorem renewal_settles m env env' fqdn w certRes tc notAfter :
  is_Some (legoClient m) ->
  Obtain env = Some certRes ->
  certWrite env = WriteOk ->
  keyWrite env = WriteOk ->
  issuedRecord certRes = Some (tc, notAfter) ->
  let w1 := snd (obtainOrRenewCert m env fqdn w) in
  let w2 := CheckAndManageCert m env' fqdn w1 in
  exists evs,
    trace w2 = (evs ++ trace w1)%list
    /\ (Go.Until notAfter (now env') < renewBefore m ->
        occurrences (EvObtain fqdn) evs = 1%nat)
    /\ (renewBefore m <= Go.Until notAfter (now env') ->
        occurrences (EvObtain fqdn) evs = 0%nat /\ disk w2 = disk w1).
Proof.
  intros Hm Ho Hcw Hkw Hrec. cbn zeta.
  rewrite (obtainOrRenewCert_stored m env fqdn w certRes tc notAfter)
    by done.
  cbn [snd].
  erewrite (CheckAndManageCert_loaded m env' fqdn _ tc notAfter)
    by (cbn; by rewrite persisted_written).
  unfold manage. cbn [disk certs trace].
  destruct (Go.Until notAfter (now env') <? renewBefore m) eqn:Hdue.
  - apply Z.ltb_lt in Hdue.
    match goal with
    | |- context [obtainOrRenewCert m env' fqdn ?w0] =>
        destruct (obtainOrRenewCert_once m env' fqdn w0) as (evs & Ht & Hn)
    end.
    cbn in Ht. eexists (evs ++ [_; _; _; _; _])%list.
    split; [rewrite Ht, <- app_assoc; reflexivity|].
    split; [|lia]. intros _. count. rewrite Hn. by cbn.
  - apply Z.ltb_ge in Hdue. eexists [_; _; _; _; _].
    split; [reflexivity|]. split; [lia|]. intros _. split; [by count|done].
Qed.

End WithCrypto.

Lemma issued_certificate_is_served_witness :
  let w' := snd (@obtainOrRenewCert toyCrypto scenarios.manager
                   scenarios.allGoesWell scenarios.host scenarios.stored) in
  let tc := {| Certificate := [scenarios.in90days];
               PrivateKey := "key:" ++ scenarios.in90days |} in
  fst (@obtainOrRenewCert toyCrypto scenarios.manager
         scenarios.allGoesWell scenarios.host scenarios.stored) = Ok tt
  /\ @persisted toyCrypto (disk w') scenarios.host
     = Some (tc, 90 * scenarios.day)
  /\ @GetCertificateForSNI toyCrypto {| ServerName := scenarios.host |} w'
     = (Ok tc, {| disk := disk w'; certs := certs w';
                  trace := EvCacheGet scenarios.host :: trace w' |}).
Proof.
  apply (@issued_certificate_is_served toyCrypto scenarios.manager
           scenarios.allGoesWell scenarios.host scenarios.stored
           scenarios.issued).
  - discriminate.
  - by eexists.
  - reflexivity.
  - reflexivity.
  - reflexivity.
  - by vm_compute.
Defined.

Lemma served_name_stays_served_witness :
  let hello := {| ServerName := scenarios.host |} in
  let w1 := snd (@GetCertificateForSNI toyCrypto hello scenarios.stored) in
  let w2 := {| disk := ∅; certs := certs w1; trace := trace w1 |} in
  @GetCertificateForSNI toyCrypto hello w2
  = (Ok {| Certificate := [scenarios.in10days];
           PrivateKey := "key:" ++ scenarios.in10days |},
     {| disk := disk w2; certs := certs w2;
        trace := EvCacheGet scenarios.host :: trace w2 |}).
Proof.
  apply (@served_name_stays_served toyCrypto
           {| ServerName := scenarios.host |} scenarios.stored).
  - by vm_compute.
  - reflexivity.
Defined.

Lemma check_brings_cache_in_line_witness :
  let tc := {| Certificate := [scenarios.in90days];
               PrivateKey := "key:" ++ scenarios.in90days |} in
  let old := {| Certificate := [scenarios.in10days];
                PrivateKey := "key:" ++ scenarios.in10days |} in
  let w := {| disk := scenarios.pairOn scenarios.in90days;
              certs := {[ scenarios.host := old ]}; trace := [] |} in
  let w' := @CheckAndManageCert toyCrypto scenarios.manager
              scenarios.allGoesWell scenarios.host w in
  disk w' = disk w
  /\ certs w' = <[scenarios.host := tc]> (certs w)
  /\ (exists evs, trace w' = (evs ++ trace w)%list
                  /\ Forall (fun e => issues e = false) evs)
  /\ fst (@GetCertificateForSNI toyCrypto
            {| ServerName := scenarios.host |} w') = Ok tc.
Proof.
  apply (@check_brings_cache_in_line toyCrypto scenarios.manager
           scenarios.allGoesWell scenarios.host _ _ (90 * scenarios.day)).
  - discriminate.
  - by vm_compute.
  - by vm_compute.
Defined.

Lemma renewal_settles_witness :
  let w1 := snd (@obtainOrRenewCert toyCrypto scenarios.manager
                   scenarios.allGoesWell scenarios.host scenarios.stored) in
  let w2 := @CheckAndManageCert toyCrypto scenarios.manager
              scenarios.allGoesWell scenarios.host w1 in
  exists evs,
    trace w2 = (evs ++ trace w1)%list
    /\ (Go.Until (90 * scenarios.day) (now scenarios.allGoesWell)
        < renewBefore scenarios.manager ->
        occurrences (EvObtain scenarios.host) evs = 1%nat)
    /\ (renewBefore scenarios.manager
        <= Go.Until (90 * scenarios.day) (now scenarios.allGoesWell) ->
        occurrences (EvObtain scenarios.host) evs = 0%nat
        /\ disk w2 = disk w1).
Proof.
  apply (@renewal_settles toyCrypto scenarios.manager scenarios.allGoesWell
           scenarios.allGoesWell scenarios.host scenarios.stored
           scenarios.issued
           {| Certificate := [scenarios.in90days];
              PrivateKey := "key:" ++ scenarios.in90days |}).
  - by eexists.
  - reflexivity.
  - reflexivity.
  - reflexivity.
  - by vm_compute.
Defined.

End ServingProofs.

(* ===================================================================== *)
(** * Properties of the configuration and of the start of the manager     *)
(* ===================================================================== *)

Module ConfigProofs.
Import text config.

Lemma getEnv_provided environ key :
  getEnv environ key "" <> "" <-> provided environ key.
Proof.
  unfold getEnv, provided. destruct (environ !! key) as [v|]; split.
  - intros Hv. by exists v.
  - by intros (v' & [= <-] & Hv).
  - done.
  - by intros (v' & [=] & _).
Qed.

Lemma getEnv_missing environ key :
  getEnv environ key "" = "" -> ~ provided environ key.
Proof. intros He Hp. by apply getEnv_provided in Hp. Qed.

Lemma getEnv_value environ key :
  getEnv environ key "" <> "" ->
  environ !! key = Some (getEnv environ key "").
Proof. unfold getEnv. by destruct (environ !! key). Qed.

Section WithUnicode.
Context `{Unicode}.

(** What a configuration that loaded holds. *)
Lemma LoadConfig_inr environ cfg :
  LoadConfig environ = inr cfg ->
  RenewBefore cfg = 30 * 24 * Hour
  /\ environ !! "ACME_EMAIL" = Some (ACMEEmail cfg) /\ ACMEEmail cfg <> ""
  /\ environ !! "GANDI_API_KEY" = Some (GandiAPIKey cfg)
  /\ GandiAPIKey cfg <> ""
  /\ environ !! "GANDI_ZONE" = Some (GandiZone cfg) /\ GandiZone cfg <> "".
Proof.
  unfold LoadConfig. cbn.
  repeat (match goal with
          | |- context [decide (?x = "")] => destruct (decide (x = ""))
          end; [done|]).
  intros [= <-]. cbn. split; [done|].
  repeat split; try done; by apply getEnv_value.
Qed.

(** X18.  [LoadConfig] succeeds exactly when the five required variables
    are set to something; otherwise its error names the first of them,
    in the order of the checks, that is unset or set to the empty
    string. *)
Theorem LoadConfig_reports_first_missing environ :
  match LoadConfig environ with
  | inr cfg => Forall (fun kv => provided environ kv.1) required
  | inl e =>
      exists before key after,
        required = (before ++ (key, e) :: after)%list
        /\ Forall (fun kv => provided environ kv.1) before
        /\ ~ provided environ key
  end.
Proof.
  unfold LoadConfig. cbn.
  destruct (decide (getEnv environ "PODMAN_SSH_HOST" "" = "")) as [E1|N1].
  { exists [], "PODMAN_SSH_HOST", (tail required).
    split; [done|]. split; [done|]. by apply getEnv_missing. }
  destruct (decide (getEnv environ "PODMAN_SSH_PORT" "" = "")) as [E2|N2].
  { exists (take 1 required), "PODMAN_SSH_PORT", (drop 2 required).
    split; [done|]. split; [|by apply getEnv_missing].
    by repeat constructor; cbn; apply getEnv_provided. }
  destruct (decide (getEnv environ "GANDI_API_KEY" "" = "")) as [E3|N3].
  { exists (take 2 required), "GANDI_API_KEY", (drop 3 required).
    split; [done|]. split; [|by apply getEnv_missing].
    by repeat constructor; cbn; apply getEnv_provided. }
  destruct (decide (getEnv environ "ACME_EMAIL" "" = "")) as [E4|N4].
  { exists (take 3 required), "ACME_EMAIL", (drop 4 required).
    split; [done|]. split; [|by apply getEnv_missing].
    by repeat constructor; cbn; apply getEnv_provided. }
  destruct (decide (getEnv environ "GANDI_ZONE" "" = "")) as [E5|N5].
  { exists (take 4 required), "GANDI_ZONE", (drop 5 required).
    split; [done|]. split; [|by apply getEnv_missing].
    by repeat constructor; cbn; apply getEnv_provided. }
  by repeat constructor; cbn; apply getEnv_provided.
Qed.

End WithUnicode.
End ConfigProofs.

Module AccountProofs.
Import text certs config frames setup CertProofs ConfigProofs.

Section WithCodec.
Context {Key : Type} `{KeyCodec Key}.

(** The outcome of the read of the key file decides everything that
    follows. *)
Lemma read_account_key w :
  os_ReadFile accountKeyPath w
  = (match disk w !! accountKeyPath with
     | None => Err (ErrNotExist accountKeyPath)
     | Some (Regular content) => Ok content
     | Some _ => Err (ErrPath accountKeyPath)
     end,
     {| disk := disk w; certs := certs.certs w;
        trace := EvReadFile accountKeyPath :: trace w |}).
Proof.
  unfold os_ReadFile. unfold_m. cbn.
  by destruct (disk w !! accountKeyPath) as [[| |]|].
Qed.

Lemma loadOrCreateACMEKey_existing (env : KeyEnv Key) w content block k :
  disk w !! accountKeyPath = Some (Regular content) ->
  pem_Decode content = Some block ->
  Type_ block = "EC PRIVATE KEY" ->
  ParseECPrivateKey (Bytes block) = Some k ->
  loadOrCreateACMEKey env w
  = (inr k, {| disk := disk w; certs := certs.certs w;
               trace := EvReadFile accountKeyPath :: trace w |}).
Proof.
  intros Hf Hd Ht Hp. unfold loadOrCreateACMEKey.
  rewrite read_account_key, Hf, Hd.
  rewrite decide_False by (intros Hx; by apply Hx).
  by rewrite Hp.
Qed.

Lemma loadOrCreateACMEKey_generated (env : KeyEnv Key) w k keyBytes :
  disk w !! accountKeyPath = None ->
  generated env = Some k ->
  MarshalECPrivateKey k = Some keyBytes ->
  let pemData := pem_EncodeToMemory
                   {| Type_ := "EC PRIVATE KEY"; Bytes := keyBytes |} in
  let t := EvWriteFile accountKeyPath :: EvReadFile accountKeyPath
           :: trace w in
  loadOrCreateACMEKey env w
  = (inr k,
     match accountKeyWrite env with
     | WriteOk =>
         {| disk := <[accountKeyPath := Regular pemData]> (disk w);
            certs := certs.certs w; trace := t |}
     | WriteFail None =>
         {| disk := disk w; certs := certs.certs w; trace := t |}
     | WriteFail (Some written) =>
         {| disk := <[accountKeyPath := Regular written]> (disk w);
            certs := certs.certs w; trace := t |}
     end).
Proof.
  intros Hnone Hg Hm. cbn zeta. unfold loadOrCreateACMEKey.
  rewrite read_account_key, Hnone. cbn. rewrite Hg, Hm.
  unfold os_WriteFile. unfold_m. cbn.
  by destruct (accountKeyWrite env) as [|[written|]].
Qed.

(** X19.  A key file that exists is never written: whatever sits at the
    path of the account key, the call leaves the volume as it is, and a
    key it returns is the one the file decodes to, never a generated
    one.  A file that does not decode is an error, not a reason to
    generate. *)
Theorem existing_account_key_is_kept (env : KeyEnv Key) w :
  is_Some (disk w !! accountKeyPath) ->
  let r := fst (loadOrCreateACMEKey env w) in
  let w' := snd (loadOrCreateACMEKey env w) in
  disk w' = disk w
  /\ trace w' = EvReadFile accountKeyPath :: trace w
  /\ forall k, r = inr k ->
       exists content block,
         disk w !! accountKeyPath = Some (Regular content)
         /\ pem_Decode content = Some block
         /\ Type_ block = "EC PRIVATE KEY"
         /\ ParseECPrivateKey (Bytes block) = Some k.
Proof.
  intros [n Hn]. cbn zeta. unfold loadOrCreateACMEKey.
  rewrite read_account_key, Hn.
  destruct n as [content| |]; cbn; try by (split; [done|]; split; [done|]).
  destruct (pem_Decode content) as [block|] eqn:Hd; cbn;
    [|by (split; [done|]; split; [done|])].
  destruct (decide (Type_ block <> "EC PRIVATE KEY")) as [Ht|Ht]; cbn;
    [by (split; [done|]; split; [done|])|].
  apply dec_stable in Ht.
  destruct (ParseECPrivateKey (Bytes block)) as [k|] eqn:Hk; cbn;
    [|by (split; [done|]; split; [done|])].
  split; [done|]. split; [done|].
  intros k' [= <-]. by exists content, block.
Qed.

(** X20.  Generate, save, find again: with no key file, a key that is
    generated and saved is returned, and every later call returns the
    same key from the file and writes nothing, provided the PEM block of
    the key decodes to itself and its bytes parse to the key. *)
Theorem generated_account_key_is_found_again (env env' : KeyEnv Key) w k
    keyBytes :
  disk w !! accountKeyPath = None ->
  generated env = Some k ->
  MarshalECPrivateKey k = Some keyBytes ->
  accountKeyWrite env = WriteOk ->
  pem_Decode (pem_EncodeToMemory
                {| Type_ := "EC PRIVATE KEY"; Bytes := keyBytes |})
  = Some {| Type_ := "EC PRIVATE KEY"; Bytes := keyBytes |} ->
  ParseECPrivateKey keyBytes = Some k ->
  let w1 := snd (loadOrCreateACMEKey env w) in
  fst (loadOrCreateACMEKey env w) = inr k
  /\ fst (loadOrCreateACMEKey env' w1) = inr k
  /\ disk (snd (loadOrCreateACMEKey env' w1)) = disk w1.
Proof.
  intros Hnone Hg Hm Hw Hd Hp. cbn zeta.
  rewrite (loadOrCreateACMEKey_generated env w k keyBytes) by done.
  rewrite Hw. cbn [fst snd].
  erewrite (loadOrCreateACMEKey_existing env');
    [done|cbn; apply lookup_insert_eq|exact Hd|done|exact Hp].
Qed.

(** X21.  A key whose save fails is returned all the same.  When the
    write failed at the open, no key file is left and the next call
    generates the key anew, so the account of this start is lost; when
    the write left a file that does not decode, every later call fails
    on it and leaves it in place. *)
Theorem unsaved_account_key (env env' : KeyEnv Key) w k keyBytes written :
  disk w !! accountKeyPath = None ->
  generated env = Some k ->
  MarshalECPrivateKey k = Some keyBytes ->
  accountKeyWrite env = WriteFail written ->
  let w1 := snd (loadOrCreateACMEKey env w) in
  fst (loadOrCreateACMEKey env w) = inr k
  /\ match written with
     | None =>
         disk w1 = disk w
         /\ forall k' keyBytes',
              generated env' = Some k' ->
              MarshalECPrivateKey k' = Some keyBytes' ->
              fst (loadOrCreateACMEKey env' w1) = inr k'
     | Some data =>
         disk w1 !! accountKeyPath = Some (Regular data)
         /\ (pem_Decode data = None ->
             fst (loadOrCreateACMEKey env' w1) = inl ErrDecodePEM
             /\ disk (snd (loadOrCreateACMEKey env' w1)) = disk w1)
     end.
Proof.
  intros Hnone Hg Hm Hw. cbn zeta.
  rewrite (loadOrCreateACMEKey_generated env w k keyBytes) by done.
  rewrite Hw. cbn [fst snd].
  split; [done|]. destruct written as [data|]; cbn [disk].
  - rewrite lookup_insert_eq. split; [done|]. intros Hd.
    unfold loadOrCreateACMEKey. rewrite read_account_key. cbn.
    rewrite lookup_insert_eq. by rewrite Hd.
  - split; [done|]. intros k' keyBytes' Hg' Hm'.
    by rewrite (loadOrCreateACMEKey_generated env' _ k' keyBytes').
Qed.

(** The account key is all the volume that the call can change, and all
    it reads. *)
Lemma loadOrCreateACMEKey_touches (env : KeyEnv Key) w :
  let w' := snd (loadOrCreateACMEKey env w) in
  (forall p, p <> accountKeyPath -> disk w' !! p = disk w !! p)
  /\ certs.certs w' = certs.certs w
  /\ exists evs,
       trace w' = (evs ++ trace w)%list
       /\ Forall (fun e => e = EvReadFile accountKeyPath
                           \/ e = EvWriteFile accountKeyPath) evs.
Proof.
  cbn zeta. unfold loadOrCreateACMEKey. rewrite read_account_key.
  assert (Hread : exists evs,
             EvReadFile accountKeyPath :: trace w = (evs ++ trace w)%list
             /\ Forall (fun e => e = EvReadFile accountKeyPath
                                 \/ e = EvWriteFile accountKeyPath) evs).
  { exists [EvReadFile accountKeyPath]. split; [done|].
    repeat (apply List.Forall_cons; [by auto|]). apply List.Forall_nil. }
  destruct (disk w !! accountKeyPath) as [[content| |]|]; cbn;
    try by (split; [done|]; split; [done|]).
  - destruct (pem_Decode content) as [block|]; cbn;
      [|by (split; [done|]; split; [done|])].
    destruct (decide (Type_ block <> "EC PRIVATE KEY")); cbn;
      [by (split; [done|]; split; [done|])|].
    destruct (ParseECPrivateKey (Bytes block)); cbn;
      by (split; [done|]; split; [done|]).
  - destruct (generated env) as [k|]; cbn;
      [|by (split; [done|]; split; [done|])].
    destruct (MarshalECPrivateKey k) as [keyBytes|]; cbn;
      [|by (split; [done|]; split; [done|])].
    unfold os_WriteFile. unfold_m. cbn.
    assert (Hwrite : exists evs,
              EvWriteFile accountKeyPath :: EvReadFile accountKeyPath
                :: trace w = (evs ++ trace w)%list
              /\ Forall (fun e => e = EvReadFile accountKeyPath
                                  \/ e = EvWriteFile accountKeyPath) evs).
    { exists [EvWriteFile accountKeyPath; EvReadFile accountKeyPath].
      split; [done|].
      repeat (apply List.Forall_cons; [by auto|]). apply List.Forall_nil. }
    destruct (accountKeyWrite env) as [|[data|]]; cbn;
      (split; [|by split]); intros p Hp; try done;
      by rewrite lookup_insert_ne.
Qed.

Section WithUnicode.
Context `{Unicode}.

(** [NewManager], step by step, when it succeeds. *)
Lemma NewManager_inr cfg (env : ManagerEnv) w built w' :
  NewManager cfg env w = (inr built, w') ->
  exists k w1 account,
    loadOrCreateACMEKey (keyEnv env) w = (inr k, w1)
    /\ built = {| manager :=
                    {| legoClient :=
                         Some {| CADirURL := if ACMEStaging cfg
                                             then stagingURL
                                             else productionURL |};
                       renewBefore := RenewBefore cfg |};
                  legoUser := {| Email := ACMEEmail cfg;
                                 Registration := account;
                                 key := k |};
                  dnsProvider :=
                    NewManualGandiHTTPProvider (GandiAPIKey cfg)
                                               (GandiZone cfg) |}
    /\ w' = {| disk := disk w1; certs := ∅; trace := trace w1 |}.
Proof.
  unfold NewManager.
  destruct (loadOrCreateACMEKey (keyEnv env) w) as [[e|k] w1]; [done|].
  destruct (newClient env); cbn; [|done].
  destruct (setProvider env); cbn; [|done].
  destruct (match resolveAccount env with
            | Some account => Some account
            | None => register env
            end) as [account|]; [|done].
  intros [= <- <-]. by exists k, w1, account.
Qed.

(** X22.  From the environment to a manager that can renew: when
    [LoadConfig] accepted the environment and [NewManager] returned a
    manager, the manager has an ACME client, starts with an empty cache,
    and renews thirty days before expiry, a [time.Duration] in the range
    where the test of the check is the comparison of instants; its
    account carries the e-mail address of the environment and the key
    that [loadOrCreateACMEKey] returned, and its DNS provider the API
    key of the environment. *)
Theorem configured_manager_is_ready environ cfg (env : ManagerEnv) w built
    w' :
  LoadConfig environ = inr cfg ->
  NewManager cfg env w = (inr built, w') ->
  is_Some (legoClient (manager built))
  /\ renewBefore (manager built) = 30 * 24 * Hour
  /\ Go.minDuration < renewBefore (manager built) <= Go.maxDuration
  /\ certs.certs w' = ∅
  /\ environ !! "ACME_EMAIL" = Some (Email (legoUser built))
  /\ environ !! "GANDI_API_KEY" = Some (gandi.apiKey (dnsProvider built))
  /\ fst (loadOrCreateACMEKey (keyEnv env) w) = inr (key (legoUser built)).
Proof.
  intros Hcfg Hnew.
  apply LoadConfig_inr in Hcfg as (Hrb & Hmail & _ & Hkey & _ & _ & _).
  apply NewManager_inr in Hnew as (k & w1 & account & Hk & -> & ->). cbn.
  rewrite Hk, Hrb. split; [by eexists|]. split; [done|].
  split; [by vm_compute|]. done.
Qed.

(** X23.  The start of the manager reads and writes one file, the
    account key: every other path of the volume is after [NewManager]
    what it was before, whether the call succeeds or fails, and no
    certificate file is read and no certificate ordered. *)
Theorem start_up_leaves_certificates_alone cfg (env : ManagerEnv) w :
  let w' := snd (NewManager cfg env w) in
  (forall p, p <> accountKeyPath -> disk w' !! p = disk w !! p)
  /\ exists evs,
       trace w' = (evs ++ trace w)%list
       /\ Forall (fun e => e = EvReadFile accountKeyPath
                           \/ e = EvWriteFile accountKeyPath) evs.
Proof.
  cbn zeta. unfold NewManager.
  destruct (loadOrCreateACMEKey_touches (keyEnv env) w) as (Hd & _ & Ht).
  destruct (loadOrCreateACMEKey (keyEnv env) w) as [[e|k] w1]; [done|].
  cbn [snd] in *.
  destruct (newClient env); cbn; [|done].
  destruct (setProvider env); cbn; [|done].
  by destruct (match resolveAccount env with
               | Some account => Some account
               | None => register env
               end).
Qed.

End WithUnicode.
End WithCodec.

(** The key on the volume is returned, and the volume left as it is. *)
Lemma existing_account_key_is_kept_witness :
  let r := fst (@loadOrCreateACMEKey string toyCodec examples.firstStart
                  examples.keyOnVolume) in
  let w' := snd (@loadOrCreateACMEKey string toyCodec examples.firstStart
                   examples.keyOnVolume) in
  disk w' = disk examples.keyOnVolume
  /\ trace w' = EvReadFile accountKeyPath :: trace examples.keyOnVolume
  /\ forall k, r = inr k ->
       exists content block,
         disk examples.keyOnVolume !! accountKeyPath
         = Some (Regular content)
         /\ @pem_Decode string toyCodec content = Some block
         /\ Type_ block = "EC PRIVATE KEY"
         /\ @ParseECPrivateKey string toyCodec (Bytes block) = Some k.
Proof.
  apply (@existing_account_key_is_kept string toyCodec examples.firstStart
           examples.keyOnVolume).
  vm_compute. by eexists.
Defined.

Lemma generated_account_key_is_found_again_witness :
  let w1 := snd (@loadOrCreateACMEKey string toyCodec examples.firstStart
                   scenarios.emptyVolume) in
  fst (@loadOrCreateACMEKey string toyCodec examples.firstStart
         scenarios.emptyVolume) = inr "k1"
  /\ fst (@loadOrCreateACMEKey string toyCodec examples.readOnlyStart w1)
     = inr "k1"
  /\ disk (snd (@loadOrCreateACMEKey string toyCodec
                  examples.readOnlyStart w1))
     = disk w1.
Proof.
  apply (@generated_account_key_is_found_again string toyCodec
           examples.firstStart examples.readOnlyStart scenarios.emptyVolume
           "k1" "k1").
  - by vm_compute.
  - reflexivity.
  - reflexivity.
  - reflexivity.
  - by vm_compute.
  - by vm_compute.
Defined.

(** On a volume that cannot be written every start makes a key of its
    own. *)
Lemma unsaved_account_key_witness :
  let w1 := snd (@loadOrCreateACMEKey string toyCodec
                   examples.readOnlyStart scenarios.emptyVolume) in
  fst (@loadOrCreateACMEKey string toyCodec examples.readOnlyStart
         scenarios.emptyVolume) = inr "k1"
  /\ disk w1 = disk scenarios.emptyVolume
  /\ forall k' keyBytes',
       generated examples.firstStart = Some k' ->
       @MarshalECPrivateKey string toyCodec k' = Some keyBytes' ->
       fst (@loadOrCreateACMEKey string toyCodec examples.firstStart w1)
       = inr k'.
Proof.
  apply (@unsaved_account_key string toyCodec examples.readOnlyStart
           examples.firstStart scenarios.emptyVolume "k1" "k1" None).
  - by vm_compute.
  - reflexivity.
  - reflexivity.
  - reflexivity.
Defined.

Lemma configured_manager_is_ready_witness :
  exists built w',
    @NewManager string toyCodec asciiText
      {| UpdateInterval := 10 * Second;
         CertCheckInterval := 12 * Hour;
         RenewBefore := 30 * 24 * Hour;
         SSHUser := "core"; SSHHost := "10.0.0.1"; SSHPort := "22";
         GandiAPIKey := "secret"; ACMEEmail := "ops@example.com";
         GandiZone := "example.com"; ACMEStaging := false |}
      examples.startEnv scenarios.emptyVolume = (inr built, w')
    /\ is_Some (legoClient (manager built))
    /\ renewBefore (manager built) = 30 * 24 * Hour
    /\ Go.minDuration < renewBefore (manager built) <= Go.maxDuration
    /\ certs.certs w' = ∅
    /\ examples.environment !! "ACME_EMAIL" = Some (Email (legoUser built))
    /\ examples.environment !! "GANDI_API_KEY"
       = Some (gandi.apiKey (dnsProvider built))
    /\ fst (@loadOrCreateACMEKey string toyCodec
              (keyEnv examples.startEnv) scenarios.emptyVolume)
       = inr (key (legoUser built)).
Proof.
  eexists _, _. split; [reflexivity|].
  eapply (@configured_manager_is_ready string toyCodec asciiText
            examples.environment).
  - by vm_compute.
  - reflexivity.
Defined.

End AccountProofs.

(* ===================================================================== *)
(** * Properties of the exchanges with Gandi                              *)
(* ===================================================================== *)

Module ProviderProofs.
Import text gandi setup StringFacts GandiProofs.

Lemma Present_sent env p domain token keyAuth req :
  snd (Present env p domain token keyAuth) = [req] ->
  exists recordName,
    recordNameOf p (fst (GetRecord env domain keyAuth)) = inr recordName
    /\ req = {| Method := "POST";
                URL := gandiAPI ++ "/v5/livedns/domains/" ++ baseZone p
                                ++ "/records/" ++ recordName;
                Authorization := "Bearer " ++ apiKey p;
                Body := Some (snd (GetRecord env domain keyAuth)) |}
    /\ fst (Present env p domain token keyAuth)
       = match Do env req with
         | None => Some ErrSend
         | Some resp =>
             if decide (StatusCode resp <> StatusCreated)
             then Some (ErrStatus (StatusCode resp) (RespBody resp))
             else None
         end.
Proof.
  unfold Present. destruct (GetRecord env domain keyAuth) as [fqdn value].
  cbn [fst snd].
  destruct (recordNameOf p fqdn) as [e|recordName]; [done|].
  destruct (NewRequest env _ _); cbn [negb]; [|done].
  match goal with |- context [Do env ?r] => set (rq := r) end.
  destruct (Do env rq) as [resp|] eqn:Hdo.
  - destruct (decide (StatusCode resp <> StatusCreated));
      intros [= <-]; exists recordName; by rewrite Hdo, ?decide_True,
        ?decide_False by done.
  - intros [= <-]. exists recordName. by rewrite Hdo.
Qed.

Lemma CleanUp_sent env p domain token keyAuth req :
  snd (CleanUp env p domain token keyAuth) = [req] ->
  exists recordName,
    recordNameOf p (fst (GetRecord env domain keyAuth)) = inr recordName
    /\ req = {| Method := "DELETE";
                URL := gandiAPI ++ "/v5/livedns/domains/" ++ baseZone p
                                ++ "/records/" ++ recordName ++ "/TXT";
                Authorization := "Bearer " ++ apiKey p;
                Body := None |}
    /\ fst (CleanUp env p domain token keyAuth)
       = match Do env req with
         | None => Some ErrSend
         | Some resp =>
             if decide (StatusCode resp <> StatusNoContent
                        /\ StatusCode resp <> StatusNotFound)
             then Some (ErrStatus (StatusCode resp) (RespBody resp))
             else None
         end.
Proof.
  unfold CleanUp. destruct (GetRecord env domain keyAuth) as [fqdn value].
  cbn [fst snd].
  destruct (recordNameOf p fqdn) as [e|recordName]; [done|].
  destruct (NewRequest env _ _); cbn [negb]; [|done].
  match goal with |- context [Do env ?r] => set (rq := r) end.
  destruct (Do env rq) as [resp|] eqn:Hdo.
  - destruct (decide (StatusCode resp <> StatusNoContent
                      /\ StatusCode resp <> StatusNotFound));
      intros [= <-]; exists recordName; by rewrite Hdo, ?decide_True,
        ?decide_False by done.
  - intros [= <-]. exists recordName. by rewrite Hdo.
Qed.

(** X24.  When a challenge ends without error.  [Present] returns no
    error exactly when it sent one request and Gandi answered it with
    201 Created; any other status, 200 included, is an error.  [CleanUp]
    returns no error exactly when it sent one request and the answer was
    204 No Content or 404 Not Found: a record that is already gone is
    not an error.  Neither ever sends more than one request. *)
Theorem challenge_record_outcomes env p domain token keyAuth :
  (fst (Present env p domain token keyAuth) = None
   <-> exists req resp,
         snd (Present env p domain token keyAuth) = [req]
         /\ Do env req = Some resp
         /\ StatusCode resp = 201)
  /\ (fst (CleanUp env p domain token keyAuth) = None
      <-> exists req resp,
            snd (CleanUp env p domain token keyAuth) = [req]
            /\ Do env req = Some resp
            /\ (StatusCode resp = 204 \/ StatusCode resp = 404))
  /\ (length (snd (Present env p domain token keyAuth)) <= 1)%nat
  /\ (length (snd (CleanUp env p domain token keyAuth)) <= 1)%nat.
Proof.
  split; [|split; [|split]].
  - split.
    + intros Hnone.
      assert (exists req, snd (Present env p domain token keyAuth) = [req])
        as [req Hsent].
      { revert Hnone. unfold Present.
        destruct (GetRecord env domain keyAuth) as [fqdn value].
        destruct (recordNameOf p fqdn); [done|].
        destruct (NewRequest env _ _); cbn [negb]; [|done].
        repeat case_match; try done; by eexists. }
      destruct (Present_sent _ _ _ _ _ _ Hsent) as (rn & _ & _ & Hr).
      rewrite Hr in Hnone. exists req.
      destruct (Do env req) as [resp|]; [|done]. exists resp.
      destruct (decide (StatusCode resp <> StatusCreated)) as [|Hs];
        [done|].
      apply dec_stable in Hs. done.
    + intros (req & resp & Hsent & Hdo & Hs).
      destruct (Present_sent _ _ _ _ _ _ Hsent) as (rn & _ & _ & Hr).
      rewrite Hr, Hdo. rewrite decide_False; [done|].
      intros Hx. by apply Hx.
  - split.
    + intros Hnone.
      assert (exists req, snd (CleanUp env p domain token keyAuth) = [req])
        as [req Hsent].
      { revert Hnone. unfold CleanUp.
        destruct (GetRecord env domain keyAuth) as [fqdn value].
        destruct (recordNameOf p fqdn); [done|].
        destruct (NewRequest env _ _); cbn [negb]; [|done].
        repeat case_match; try done; by eexists. }
      destruct (CleanUp_sent _ _ _ _ _ _ Hsent) as (rn & _ & _ & Hr).
      rewrite Hr in Hnone. exists req.
      destruct (Do env req) as [resp|]; [|done]. exists resp.
      destruct (decide (StatusCode resp <> StatusNoContent
                        /\ StatusCode resp <> StatusNotFound)) as [|Hs];
        [done|].
      split; [done|]. split; [done|].
      unfold StatusNoContent, StatusNotFound in Hs. lia.
    + intros (req & resp & Hsent & Hdo & Hs).
      destruct (CleanUp_sent _ _ _ _ _ _ Hsent) as (rn & _ & _ & Hr).
      rewrite Hr, Hdo. rewrite decide_False; [done|].
      unfold StatusNoContent, StatusNotFound. lia.
  - unfold Present. destruct (GetRecord env domain keyAuth) as [fqdn value].
    repeat case_match; cbn; lia.
  - unfold CleanUp. destruct (GetRecord env domain keyAuth) as [fqdn value].
    repeat case_match; cbn; lia.
Qed.

(** X25.  [CleanUp] deletes what [Present] created: for one challenge,
    the request of [CleanUp] goes to the TXT record set of the very
    record [Present] posted to, with the same bearer key; the request of
    [Present] carries the TXT value, that of [CleanUp] no body. *)
Theorem CleanUp_addresses_presented_record env p domain token token'
    keyAuth req req' :
  snd (Present env p domain token keyAuth) = [req] ->
  snd (CleanUp env p domain token' keyAuth) = [req'] ->
  URL req' = URL req ++ "/TXT"
  /\ Authorization req' = Authorization req
  /\ Authorization req = "Bearer " ++ apiKey p
  /\ Method req = "POST" /\ Method req' = "DELETE"
  /\ Body req = Some (snd (GetRecord env domain keyAuth))
  /\ Body req' = None.
Proof.
  intros Hp Hc.
  apply Present_sent in Hp as (rn & Hrn & -> & _).
  apply CleanUp_sent in Hc as (rn' & Hrn' & -> & _).
  assert (rn' = rn) as -> by congruence. cbn.
  by rewrite !append_assoc.
Qed.

Section WithUnicode.
Context `{Unicode}.

(** X26.  The zone of the provider is the configured zone without the
    space around it and without one final dot, so a zone written in
    absolute form serves as well: challenge names under the zone derive
    their record name either way. *)
Theorem provider_zone_drops_final_dot key zone z r :
  TrimSpace zone = z ++ "."
  \/ (TrimSpace zone = z /\ Go.HasSuffix z "." = false) ->
  baseZone (NewManualGandiHTTPProvider key zone) = z
  /\ apiKey (NewManualGandiHTTPProvider key zone) = key
  /\ recordNameOf (NewManualGandiHTTPProvider key zone)
                  (r ++ "." ++ z ++ ".") = inr r.
Proof.
  intros Hz.
  assert (Hb : baseZone (NewManualGandiHTTPProvider key zone) = z).
  { unfold NewManualGandiHTTPProvider. cbn.
    destruct Hz as [-> | [-> Hs]].
    - apply TrimSuffix_app.
    - unfold Go.TrimSuffix. by rewrite Hs. }
  split; [done|]. split; [done|].
  rewrite <- Hb at 1. apply recordNameOf_under_zone.
Qed.

End WithUnicode.

Lemma CleanUp_addresses_presented_record_witness :
  let req :=
    {| Method := "POST";
       URL := "https://api.gandi.net/v5/livedns/domains/example.com/records/_acme-challenge.app";
       Authorization := "Bearer secret"; Body := Some "keyAuth" |} in
  let req' :=
    {| Method := "DELETE";
       URL := "https://api.gandi.net/v5/livedns/domains/example.com/records/_acme-challenge.app/TXT";
       Authorization := "Bearer secret"; Body := None |} in
  URL req' = URL req ++ "/TXT"
  /\ Authorization req' = Authorization req
  /\ Authorization req = "Bearer " ++ apiKey scenarios.provider
  /\ Method req = "POST" /\ Method req' = "DELETE"
  /\ Body req
     = Some (snd (GetRecord scenarios.dnsEnv "app.example.com" "keyAuth"))
  /\ Body req' = None.
Proof.
  apply (CleanUp_addresses_presented_record scenarios.dnsEnv
           scenarios.provider "app.example.com" "token" "token" "keyAuth").
  - by vm_compute.
  - by vm_compute.
Defined.

Lemma provider_zone_drops_final_dot_witness :
  baseZone (@NewManualGandiHTTPProvider asciiText "secret" " example.com. ")
  = "example.com"
  /\ apiKey (@NewManualGandiHTTPProvider asciiText "secret" " example.com. ")
     = "secret"
  /\ recordNameOf
       (@NewManualGandiHTTPProvider asciiText "secret" " example.com. ")
       ("_acme-challenge.app" ++ "." ++ "example.com" ++ ".")
     = inr "_acme-challenge.app".
Proof.
  apply (@provider_zone_drops_final_dot asciiText).
  left. by vm_compute.
Defined.

End ProviderProofs.

(* ===================================================================== *)
(** * A tick and the certificate checks it starts                         *)
(* ===================================================================== *)

Module TickCertProofs.
Import podman proxy certs reconcile frames.
Import RouterProofs ReconcileProofs CertProofs ConcurrencyProofs FrameProofs.

Lemma tickCalls_fqdn checks envs c :
  c ∈ tickCalls checks envs -> c_fqdn c ∈ checks.
Proof.
  unfold tickCalls. revert envs.
  induction checks as [|f checks IH]; intros [|env envs] Hin; cbn in Hin;
    try by apply elem_of_nil in Hin.
  apply elem_of_cons in Hin as [-> | Hin]; [by left|].
  right. by apply (IH envs).
Qed.

Section WithCrypto.
Context `{Crypto}.

(** X27.  A backend whose route did not change costs no certificate
    work.  When the published table holds a route for an fqdn and every
    listed backend claiming the fqdn resolves to that route or not at
    all (none may be listed any more), the tick starts no check for the
    fqdn, and the checks it does start, however they interleave, leave
    the cached certificate of the fqdn and its two files as they were.
    The fqdns are host names, without a path separator. *)
Theorem settled_backend_is_left_alone tick r cs m envs sched w fqdn rt :
  ListContainers tick = Some cs ->
  plainName fqdn ->
  Forall (fun c => plainName (FQDN c)) (schedule tick) ->
  routes r !! fqdn = Some rt ->
  (forall c, c ∈ schedule tick -> FQDN c = fqdn ->
             resolveRoute tick c = Some rt \/ resolveRoute tick c = None) ->
  let checks := snd (updateRoutes tick r) in
  let w' := snd (run m sched (tickCalls checks envs, w)) in
  (fqdn ∉ checks)
  /\ certs w' !! fqdn = certs w !! fqdn
  /\ disk w' !! certFileOf fqdn = disk w !! certFileOf fqdn
  /\ disk w' !! keyFileOf fqdn = disk w !! keyFileOf fqdn.
Proof.
  intros Hl _ _ Hold Hsame. cbn zeta.
  assert (Hnot : fqdn ∉ snd (updateRoutes tick r)).
  { intros Hin.
    apply (updateRoutes_checked tick r cs fqdn Hl) in Hin
      as (c & rt' & Hc & Hf & Hr & Hne).
    destruct (Hsame c Hc Hf) as [Hrt | Hnone]; congruence. }
  split; [done|]. apply run_leaves_alone.
  apply Forall_forall. intros c Hc Heq. apply Hnot. rewrite <- Heq.
  by apply tickCalls_fqdn in Hc.
Qed.

End WithCrypto.

(** The tick of two backends on a table that holds the first: only the
    second is checked, and the stored pair of the first stays. *)
Lemma settled_backend_is_left_alone_witness :
  let r := {| routes := {[ "app.example.com" :=
                             {| TargetIP := "10.0.0.5";
                                TargetPort := 8080 |} ]} |} in
  let checks := snd (updateRoutes examples.envTwo r) in
  let w' := snd (@run toyCrypto scenarios.manager [0; 0; 0; 0]%nat
                   (tickCalls checks [scenarios.allGoesWell],
                    scenarios.stored)) in
  (scenarios.host ∉ checks)
  /\ certs w' !! scenarios.host = certs scenarios.stored !! scenarios.host
  /\ disk w' !! certFileOf scenarios.host
     = disk scenarios.stored !! certFileOf scenarios.host
  /\ disk w' !! keyFileOf scenarios.host
     = disk scenarios.stored !! keyFileOf scenarios.host.
Proof.
  apply (@settled_backend_is_left_alone toyCrypto examples.envTwo _
           [scenarios.c1; examples.c2] scenarios.manager
           [scenarios.allGoesWell] [0; 0; 0; 0]%nat scenarios.stored
           scenarios.host {| TargetIP := "10.0.0.5"; TargetPort := 8080 |}).
  - reflexivity.
  - reflexivity.
  - repeat constructor.
  - by vm_compute.
  - intros c Hc Hf. left.
    apply elem_of_cons in Hc as [-> | Hc]; [by vm_compute|].
    apply elem_of_cons in Hc as [-> | Hc]; [discriminate Hf|].
    by apply elem_of_nil in Hc.
Defined.

End TickCertProofs.

(* ===================================================================== *)
(** * Properties of the proxy handler                                     *)
(* ===================================================================== *)

Module HandlerProofs.
Import text proxy reconcile handler RouterProofs LoopProofs.

Section WithNet.
Context `{Net}.

Lemma Header_Get_Set h key value :
  Header_Get (Header_Set h key value) key = value.
Proof. unfold Header_Get, Header_Set. by rewrite lookup_insert_eq. Qed.

Lemma Header_Get_Set_other h key key' value :
  CanonicalMIMEHeaderKey key' <> CanonicalMIMEHeaderKey key ->
  Header_Get (Header_Set h key value) key' = Header_Get h key'.
Proof.
  intros Hne. unfold Header_Get, Header_Set. by rewrite lookup_insert_ne.
Qed.

Lemma director_routed router req route :
  GetRoute router (routeKey req) = Some route ->
  director router req
  = {| Host := JoinHostPort (TargetIP route) (formatInt (TargetPort route));
       URL_Scheme := "http";
       URL_Host := JoinHostPort (TargetIP route)
                                (formatInt (TargetPort route));
       Header := Header_Set
                   (Header_Set (Header req) "X-Forwarded-Host"
                               (Header_Get (Header req) "Host"))
                   "X-Forwarded-Proto" "https" |}.
Proof. intros Hr. unfold director. by rewrite Hr. Qed.


(** X29.  A request for a host with a route is pointed at the backend of
    the route: scheme http, and as URL host and as Host the address and
    the port of the route in decimal, joined by a colon, the address in
    brackets if it holds a colon.  X-Forwarded-Proto is https,
    X-Forwarded-Host is what the header map held under Host, and every
    other header is as it came. *)
Theorem routed_request_targets_backend router req route :
  GetRoute router (routeKey req) = Some route ->
  let req' := director router req in
  let target := JoinHostPort (TargetIP route) (formatInt (TargetPort route)) in
  URL_Scheme req' = "http" /\ URL_Host req' = target /\ Host req' = target
  /\ (contains ":"%char (TargetIP route) = false ->
      target = TargetIP route ++ ":" ++ formatInt (TargetPort route))
  /\ Header_Get (Header req') "X-Forwarded-Proto" = "https"
  /\ (CanonicalMIMEHeaderKey "X-Forwarded-Host"
      <> CanonicalMIMEHeaderKey "X-Forwarded-Proto" ->
      Header_Get (Header req') "X-Forwarded-Host"
      = Header_Get (Header req) "Host")
  /\ (forall key,
        CanonicalMIMEHeaderKey key <> CanonicalMIMEHeaderKey "X-Forwarded-Host" ->
        CanonicalMIMEHeaderKey key <> CanonicalMIMEHeaderKey "X-Forwarded-Proto" ->
        Header_Get (Header req') key = Header_Get (Header req) key).
Proof.
  intros Hr. cbn zeta. rewrite (director_routed router req route Hr).
  cbn [Host URL_Scheme URL_Host Header].
  split; [done|]. split; [done|]. split; [done|]. split.
  { intros Hc. unfold JoinHostPort. by rewrite Hc. }
  split; [apply Header_Get_Set|]. split.
  - intros Hne. rewrite Header_Get_Set_other by done. apply Header_Get_Set.
  - intros key H1 H2. by rewrite !Header_Get_Set_other.
Qed.

(** X30.  Routing on what the update loop published: whatever the loop
    received since the router was made, a request either has no route and
    is pointed at the placeholder host, or is pointed at a backend whose
    address is not empty and whose port is within the range of [int]. *)
Theorem proxied_target_is_resolved signals req :
  let router := RunUpdateLoop signals NewRouter in
  URL_Host (director router req) = "invalid-internal-host"
  \/ exists route,
       GetRoute router (routeKey req) = Some route
       /\ resolved route
       /\ URL_Host (director router req)
          = JoinHostPort (TargetIP route) (formatInt (TargetPort route)).
Proof.
  cbn zeta.
  destruct (GetRoute (RunUpdateLoop signals NewRouter) (routeKey req))
    as [route|] eqn:Hr.
  - right. exists route. split; [done|]. split.
    + apply (RunUpdateLoop_routes signals NewRouter) with (routeKey req);
        [|exact Hr].
      intros f rt' Hl. unfold NewRouter in Hl. cbn in Hl.
      by rewrite lookup_empty in Hl.
    + by rewrite (director_routed _ req route Hr).
  - left. unfold director. by rewrite Hr.
Qed.

End WithNet.


Lemma routed_request_targets_backend_witness :
  let route := {| TargetIP := "10.0.0.5"; TargetPort := 8080 |} in
  let req' := @director plainNet scenarios.twoRoutes request in
  let target := JoinHostPort (TargetIP route) (formatInt (TargetPort route)) in
  URL_Scheme req' = "http" /\ URL_Host req' = target /\ Host req' = target
  /\ (contains ":"%char (TargetIP route) = false ->
      target = TargetIP route ++ ":" ++ formatInt (TargetPort route))
  /\ @Header_Get plainNet (Header req') "X-Forwarded-Proto" = "https"
  /\ (@CanonicalMIMEHeaderKey plainNet "X-Forwarded-Host"
      <> @CanonicalMIMEHeaderKey plainNet "X-Forwarded-Proto" ->
      @Header_Get plainNet (Header req') "X-Forwarded-Host"
      = @Header_Get plainNet (Header request) "Host")
  /\ (forall key,
        @CanonicalMIMEHeaderKey plainNet key
        <> @CanonicalMIMEHeaderKey plainNet "X-Forwarded-Host" ->
        @CanonicalMIMEHeaderKey plainNet key
        <> @CanonicalMIMEHeaderKey plainNet "X-Forwarded-Proto" ->
        @Header_Get plainNet (Header req') key
        = @Header_Get plainNet (Header request) key).
Proof.
  apply (@routed_request_targets_backend plainNet scenarios.twoRoutes
           request).
  by vm_compute.
Defined.

(** The request of the example goes to 10.0.0.5:8080. *)
Example request_goes_to_backend :
  URL_Host (@director plainNet scenarios.twoRoutes request) = "10.0.0.5:8080".
Proof. by vm_compute. Qed.

End HandlerProofs.
